(** * fastlimiter: an in-memory rate limiter (fastlimiter.go)

    A shallow embedding of [FastLimiter] and its operations [New], [Get],
    [Remove], [Count] and [Clean], followed by the properties of the
    limiter that the specification states about them.

    Conventions of the embedding.
    - [int32] values are integers of [Z]; every [int32] operation of the
      source is written with its wrap-around ([wrap32]).
    - A [time.Time] is the number of nanoseconds elapsed since Go's zero
      [Time], so the zero [Time] is [0]; a [time.Duration] is a number of
      nanoseconds.  [Before] is [<] and [Add] is [+].
    - The two Go maps are [gmap]s with string keys.  The maps hold pointers:
      an in-place update of the item a key points to is an update of the map
      at that key.
    - The clock is an argument: one call of an operation reads [time.Now]
      a few times in a row, the embedding gives it the one instant [now].
    - An index out of range is a run-time panic, the outcome [Panic].
    - Calls are sequential: the locks and atomics of the source are the
      plain reads and writes they protect. *)

From Stdlib Require Import ZArith Lia.
From stdpp Require Import gmap strings list fin_maps.

Local Open Scope Z_scope.

(** ** Machine integers and time *)

Definition wrap32 (x : Z) : Z := (x + 2 ^ 31) mod 2 ^ 32 - 2 ^ 31.

Definition add32 (x y : Z) : Z := wrap32 (x + y).
Definition sub32 (x y : Z) : Z := wrap32 (x - y).
Definition mul32 (x y : Z) : Z := wrap32 (x * y).

Definition in_int32 (x : Z) : Prop := - 2 ^ 31 <= x < 2 ^ 31.

Definition Millisecond : Z := 1000000.
Definition Minute : Z := 60000000000.

(** [time.Duration(d) * time.Millisecond] for an [int32] [d]: the product
    is an [int64], which an [int32] factor cannot overflow. *)
Definition ms (d : Z) : Z := d * Millisecond.

(** ** Data *)

Record Options := mkOptions {
  Prefix : string;
  Max : Z;
  CleanDuration : Z;
  Duration : Z
}.

Record statusCacheItem := mkStatus {
  status_Index : Z;
  status_Expire : Z
}.

Record limiterCacheItem := mkItem {
  item_Total : Z;
  item_Remaining : Z;
  item_Duration : Z;
  item_Expire : Z
}.

(** The lock and the ticker carry no data of the limiter. *)
Record FastLimiter := mkLimiter {
  status : gmap string statusCacheItem;
  store : gmap string limiterCacheItem;
  options : Options
}.

Record Result := mkResult {
  res_Total : Z;
  res_Remaining : Z;
  res_Duration : Z;
  res_Reset : Z
}.

(** The zero value of [Result], what a named result holds before it is
    assigned. *)
Definition zeroResult : Result := mkResult 0 0 0 0.

(** ** Outcomes: a value, or a run-time panic *)

Inductive outcome (A : Type) : Type :=
| Ok (a : A)
| Panic.
Arguments Ok {A} a.
Arguments Panic {A}.

#[global] Instance outcome_ret : MRet outcome := fun A a => Ok a.

#[global] Instance outcome_bind : MBind outcome := fun A B k m =>
  match m with
  | Ok a => k a
  | Panic => Panic
  end.

(** [args[i]] for an index of integer type. *)
Definition index (args : list Z) (i : Z) : outcome Z :=
  if i <? 0 then Panic
  else match args !! Z.to_nat i with
       | Some v => Ok v
       | None => Panic
       end.

(** ** Operations *)

Definition New (opts : Options) : FastLimiter :=
  let d := if Duration opts =? 0 then Minute else Duration opts in
  let p := if decide (Prefix opts = EmptyString) then "limit:" else Prefix opts in
  let m := if Max opts =? 0 then 1000 else Max opts in
  mkLimiter ∅ ∅ (mkOptions p m (CleanDuration opts) d).

Definition getMapValue (l : FastLimiter) (key : string) : option limiterCacheItem :=
  store l !! key.

Definition setMapValue (l : FastLimiter) (key : string) (res : limiterCacheItem)
  : FastLimiter :=
  mkLimiter (status l) (<[key := res]> (store l)) (options l).

Definition getStatusMapValue (l : FastLimiter) (key : string) : option statusCacheItem :=
  status l !! key.

Definition setStatusMapValue (l : FastLimiter) (key : string) (res : statusCacheItem)
  : FastLimiter :=
  mkLimiter (<[key := res]> (status l)) (store l) (options l).

Definition statusKeyOf (key : string) : string := "{" +:+ key +:+ "}:S".

(** The first half of [initCacheItem]: with more than one policy, look the
    status item up; a missing one is stored with index 1 and [statusItem]
    stays [nil]; a present one has its index moved in place, to 1 from
    [policyCount] or beyond, one up otherwise. *)
Definition stepStatus (l : FastLimiter) (statusKey : string) (policyCount duration now : Z)
  : FastLimiter * option statusCacheItem :=
  if 1 <? policyCount then
    match getStatusMapValue l statusKey with
    | None =>
        (setStatusMapValue l statusKey (mkStatus 1 (now + ms duration * 2)), None)
    | Some statusItem =>
        let index := status_Index statusItem in
        let statusItem' :=
          if policyCount <=? index
          then mkStatus 1 (status_Expire statusItem)
          else mkStatus (add32 index 1) (status_Expire statusItem) in
        (setStatusMapValue l statusKey statusItem', Some statusItem')
    end
  else (l, None).

Definition initCacheItem (l : FastLimiter) (key : string) (args : list Z) (now : Z)
  : outcome (FastLimiter * limiterCacheItem) :=
  let policyCount := wrap32 (Z.of_nat (length args) / 2) in
  let statusKey := statusKeyOf key in
  total ← index args 0;
  duration ← index args 1;
  let '(l1, statusItem) := stepStatus l statusKey policyCount duration now in
  '(l2, total, duration) ←
    match statusItem with
    | Some s =>
        total' ← index args (sub32 (mul32 (status_Index s) 2) 2);
        duration' ← index args (sub32 (mul32 (status_Index s) 2) 1);
        Ok (setStatusMapValue l1 statusKey
              (mkStatus (status_Index s) (now + ms duration' * 2)),
            total', duration')
    | None => Ok (l1, total, duration)
    end;
  let res := mkItem total (sub32 total 1) (ms duration) (now + ms duration) in
  Ok (setMapValue l2 key res, res).

Definition getLimit (l : FastLimiter) (key : string) (args : list Z) (now : Z)
  : outcome (FastLimiter * limiterCacheItem) :=
  match getMapValue l key with
  | Some res =>
      if item_Expire res <? now then initCacheItem l key args now
      else if item_Remaining res =? -1 then Ok (l, res)
      else
        let res' := mkItem (item_Total res) (add32 (item_Remaining res) (-1))
                      (item_Duration res) (item_Expire res) in
        Ok (setMapValue l key res', res')
  | None => initCacheItem l key args now
  end.

(** [getResult] always returns a [nil] error. *)
Definition getResult (l : FastLimiter) (id : string) (policy : list Z) (now : Z)
  : outcome (FastLimiter * Result * option string) :=
  '(l', res) ← getLimit l id policy now;
  Ok (l', mkResult (item_Total res) (item_Remaining res) (item_Duration res)
            (item_Expire res), None).

(** The policy [Get] puts in the place of an empty one:
    [[l.options.Max, int32(l.options.Duration / time.Millisecond)]]. *)
Definition defaultPolicy (l : FastLimiter) : list Z :=
  [Max (options l); wrap32 (Z.quot (Duration (options l)) Millisecond)].

Definition Get (l : FastLimiter) (id : string) (policy : list Z) (now : Z)
  : outcome (FastLimiter * Result * option string) :=
  let key := Prefix (options l) +:+ id in
  let length := Z.of_nat (length policy) in
  if length mod 2 =? 1 then
    Ok (l, zeroResult, Some "fastlimiter: must be paired values")
  else
    let policy := if length =? 0 then defaultPolicy l else policy in
    getResult l key policy now.

Definition Remove (l : FastLimiter) (id : string) : FastLimiter :=
  let key := Prefix (options l) +:+ id in
  let statusKey := statusKeyOf key in
  mkLimiter (delete statusKey (status l)) (delete key (store l)) (options l).

Definition Count (l : FastLimiter) : Z := Z.of_nat (size (store l)).

(** [Clean] ranges over the store while [Remove] deletes from it.  Go
    leaves the order of a range over a map open and does not produce an
    entry deleted before it is reached: [order] is the order of the range,
    and a key that is gone when its turn comes is passed over.  The key of
    the range is what [Remove] is called with. *)
Fixpoint Clean_range (l : FastLimiter) (order : list string) (now : Z) : FastLimiter :=
  match order with
  | [] => l
  | key :: rest =>
      match store l !! key with
      | Some value =>
          if item_Expire value <? now
          then Clean_range (Remove l key) rest now
          else Clean_range l rest now
      | None => Clean_range l rest now
      end
  end.

Definition Clean (l : FastLimiter) (order : list string) (now : Z) : FastLimiter :=
  Clean_range l order now.

(** ** A run of [Get] calls *)

Record call := mkCall {
  call_id : string;
  call_policy : list Z;
  call_now : Z
}.

(** The calls one after the other; the error and the result of each are
    kept.  A panic ends the run. *)
Fixpoint run (l : FastLimiter) (cs : list call)
  : outcome (FastLimiter * list (Result * option string)) :=
  match cs with
  | [] => Ok (l, [])
  | c :: cs' =>
      '(l1, r, e) ← Get l (call_id c) (call_policy c) (call_now c);
      '(l2, rs) ← run l1 cs';
      Ok (l2, (r, e) :: rs)
  end.

(** The limiter that [New] makes from the zero [Options]. *)
Definition limiter0 : FastLimiter := New (mkOptions EmptyString 0 0 0).

(** The key of an identifier in the store, and the key of its status. *)
Definition keyOf (l : FastLimiter) (id : string) : string := Prefix (options l) +:+ id.

(** The identifier has no item in the store and none in the status map. *)
Definition never_seen (l : FastLimiter) (id : string) : Prop :=
  store l !! keyOf l id = None ∧ status l !! statusKeyOf (keyOf l id) = None.

(** [getLimit] starts a new window for the key: no item, or one whose
    [Expire] is before [now]. *)
Definition starts_window (l : FastLimiter) (key : string) (now : Z) : Prop :=
  match store l !! key with
  | Some res => item_Expire res < now
  | None => True
  end.

(** What holds of every status item the code stores: its index is at
    least 1. *)
Definition status_ok (l : FastLimiter) : Prop :=
  ∀ k s, status l !! k = Some s → 1 <= status_Index s.

(** The [Result] that [getResult] reads off an item. *)
Definition resultOf (res : limiterCacheItem) : Result :=
  mkResult (item_Total res) (item_Remaining res) (item_Duration res) (item_Expire res).

(** The policy [Get] works with. *)
Definition policyOf (l : FastLimiter) (policy : list Z) : list Z :=
  if Z.of_nat (length policy) =? 0 then defaultPolicy l else policy.

(** ** Scenarios *)

(** Two tiers, as in the test of a policy of several pairs: 3 requests in
    100 ms, then 2 requests in 200 ms. *)
Definition two_tiers : list Z := [3; 100; 2; 200].

Definition at_ms (id : string) (policy : list Z) (t : Z) : call := mkCall id policy (ms t).

(** The limiter after a first window of ["a"] under [two_tiers]. *)
Definition after_first_window : FastLimiter :=
  mkLimiter {[ "{limit:a}:S" := mkStatus 1 (ms 200) ]}
            {[ "limit:a" := mkItem 3 2 (ms 100) (ms 100) ]}
            (options limiter0).

(** The limiter after a second window of ["a"] that started at 101 ms. *)
Definition after_second_window : FastLimiter :=
  mkLimiter {[ "{limit:a}:S" := mkStatus 2 (ms 501) ]}
            {[ "limit:a" := mkItem 2 1 (ms 200) (ms 301) ]}
            (options limiter0).

(** Three requests of two identifiers, one of them under [two_tiers]. *)
Definition three_calls : list call :=
  [at_ms "a" two_tiers 0; at_ms "b" [10; 100] 0; at_ms "a" two_tiers 101].

(** The limiter after one request of ["a"] under the policy [[10; 100]]. *)
Definition after_one_request : FastLimiter :=
  mkLimiter ∅ {[ "limit:a" := mkItem 10 9 (ms 100) (ms 100) ]} (options limiter0).

(** ** Invariants of the store *)

(** Every value of the policy is a positive [int32]. *)
Definition positive_policy (args : list Z) : Prop :=
  Forall (λ v, 0 < v < 2 ^ 31) args.

(** Every item of the store has a positive quota and a remaining from -1
    up to the quota less one. *)
Definition items_ok (l : FastLimiter) : Prop :=
  ∀ k it, store l !! k = Some it →
    0 < item_Total it < 2 ^ 31 ∧ -1 <= item_Remaining it < item_Total it.

(** ** The example server (examples/main.go) *)








(** ** The second fastlimiter.go

    The repository holds a second text of the limiter, the one that
    follows the example server in examples/main.go.  Its data are those
    above; [Get] takes [int] values and casts them to [int32], a policy of
    one pair goes through [handleSinglePolicy], [initCacheItem] reads the
    [Expire] of the status item and stops at the last pair, and [Clean]
    deletes by the key of the store. *)
Module V2.

Definition handleSinglePolicy (l : FastLimiter) (key : string) (args : list Z) (now : Z)
  : outcome (FastLimiter * limiterCacheItem) :=
  total ← index args 0;
  duration ← index args 1;
  let res := mkItem total (sub32 total 1) (ms duration) (now + ms duration) in
  Ok (setMapValue l key res, res).

Definition initCacheItem (l : FastLimiter) (key : string) (args : list Z) (now : Z)
  : outcome (FastLimiter * limiterCacheItem) :=
  let policyCount := wrap32 (Z.of_nat (length args) / 2) in
  let statusKey := statusKeyOf key in
  match getStatusMapValue l statusKey with
  | None =>
      w ← index args 1;
      let statusItem := mkStatus 1 (now + ms w * 2) in
      '(l1, res) ← handleSinglePolicy l key args now;
      Ok (setStatusMapValue l1 statusKey statusItem, res)
  | Some statusItem =>
      let index1 :=
        if status_Expire statusItem <? now then 1
        else
          let i := status_Index statusItem in
          if policyCount <=? i then policyCount else add32 i 1 in
      total ← index args (sub32 (mul32 index1 2) 2);
      duration ← index args (sub32 (mul32 index1 2) 1);
      let l1 := setStatusMapValue l statusKey (mkStatus index1 (now + ms duration * 2)) in
      let res := mkItem total (sub32 total 1) (ms duration) (now + ms duration) in
      Ok (setMapValue l1 key res, res)
  end.

Definition getItemFromCache (l : FastLimiter) (key : string) (args : list Z) (now : Z)
  : outcome (FastLimiter * limiterCacheItem) :=
  let policyCount := wrap32 (Z.of_nat (length args) / 2) in
  if policyCount <? 2 then handleSinglePolicy l key args now
  else initCacheItem l key args now.

Definition getLimit (l : FastLimiter) (key : string) (args : list Z) (now : Z)
  : outcome (FastLimiter * limiterCacheItem) :=
  match getMapValue l key with
  | Some res =>
      if item_Expire res <? now then getItemFromCache l key args now
      else if item_Remaining res =? -1 then Ok (l, res)
      else
        let res' := mkItem (item_Total res) (add32 (item_Remaining res) (-1))
                      (item_Duration res) (item_Expire res) in
        Ok (setMapValue l key res', res')
  | None => getItemFromCache l key args now
  end.

Definition getResult (l : FastLimiter) (id : string) (policy : list Z) (now : Z)
  : outcome (FastLimiter * Result * option string) :=
  '(l', res) ← getLimit l id policy now;
  Ok (l', mkResult (item_Total res) (item_Remaining res) (item_Duration res)
            (item_Expire res), None).

(** [Max] is an [int] here and is cast like the values of the policy. *)
Definition Get (l : FastLimiter) (id : string) (policy : list Z) (now : Z)
  : outcome (FastLimiter * Result * option string) :=
  let key := Prefix (options l) +:+ id in
  let length := Z.of_nat (length policy) in
  if length mod 2 =? 1 then
    Ok (l, zeroResult, Some "fastlimiter: must be paired values")
  else
    let policy32 :=
      if length =? 0
      then [wrap32 (Max (options l));
            wrap32 (Z.quot (Duration (options l)) Millisecond)]
      else wrap32 <$> policy in
    getResult l key policy32 now.

(** The range of [Clean] deletes the key it is at, from the store and, as
    ["{" + key + "}:S"], from the status map; [order] is the order of the
    range, and a key that is gone when its turn comes is passed over. *)
Fixpoint Clean_range (l : FastLimiter) (order : list string) (now : Z) : FastLimiter :=
  match order with
  | [] => l
  | key :: rest =>
      match store l !! key with
      | Some value =>
          if item_Expire value <? now
          then Clean_range
                 (mkLimiter (delete (statusKeyOf key) (status l)) (delete key (store l))
                    (options l))
                 rest now
          else Clean_range l rest now
      | None => Clean_range l rest now
      end
  end.

Definition Clean (l : FastLimiter) (order : list string) (now : Z) : FastLimiter :=
  Clean_range l order now.

End V2.

(** * Properties *)

(** ** Arithmetic *)

Lemma wrap32_id x : in_int32 x → wrap32 x = x.
Proof.
  unfold in_int32, wrap32. intros Hx.
  rewrite Z.mod_small by lia. lia.
Qed.

Lemma index_lookup (args : list Z) i v :
  0 <= i → args !! Z.to_nat i = Some v → index args i = Ok v.
Proof.
  intros Hi Hv. unfold index.
  destruct (Z.ltb_spec i 0) as [Hneg|_]; [lia|].
  rewrite Hv. reflexivity.
Qed.

Lemma odd_length_mod (policy : list Z) :
  Nat.Odd (length policy) → Z.of_nat (length policy) mod 2 = 1.
Proof.
  intros [k Hk]. rewrite Hk.
  replace (Z.of_nat (2 * k + 1)) with (1 + Z.of_nat k * 2) by lia.
  rewrite Z.mod_add by lia. reflexivity.
Qed.

Lemma even_length_mod (policy : list Z) :
  Nat.Even (length policy) → Z.of_nat (length policy) mod 2 = 0.
Proof.
  intros [k Hk]. rewrite Hk.
  replace (Z.of_nat (2 * k)) with (0 + Z.of_nat k * 2) by lia.
  rewrite Z.mod_add by lia. reflexivity.
Qed.

(** ** [Get] on a wrong policy *)

Lemma Get_unpaired l id (policy : list Z) now :
  Z.of_nat (length policy) mod 2 = 1 →
  Get l id policy now
  = Ok (l, zeroResult, Some "fastlimiter: must be paired values").
Proof. intros Hodd. unfold Get. rewrite Hodd. reflexivity. Qed.

(** C6: with a policy of odd length [Get] returns the error of unpaired
    values and the limiter it was given: neither the store nor the status
    map has changed. *)
Theorem Get_odd_policy l id (policy : list Z) now :
  Nat.Odd (length policy) →
  Get l id policy now
  = Ok (l, zeroResult, Some "fastlimiter: must be paired values").
Proof.
  intros Hodd. apply Get_unpaired, odd_length_mod, Hodd.
Qed.

Lemma Get_odd_policy_witness :
  Nat.Odd (length [10; 1000; 1])
  ∧ Get limiter0 "a" [10; 1000; 1] 0
    = Ok (limiter0, zeroResult, Some "fastlimiter: must be paired values").
Proof.
  assert (Hodd : Nat.Odd (length [10; 1000; 1])) by (exists 1%nat; reflexivity).
  split; [exact Hodd | exact (Get_odd_policy limiter0 "a" [10; 1000; 1] 0 Hodd)].
Defined.

Lemma getResult_no_error l key policy now l' r e :
  getResult l key policy now = Ok (l', r, e) → e = None.
Proof.
  unfold getResult. destruct (getLimit l key policy now) as [[l1 res]|]; simpl.
  - intros Heq. inversion Heq. reflexivity.
  - discriminate.
Qed.

(** C9: when [Get] returns an error, the [Result] beside it is the zero
    [Result]: total 0, remaining 0, duration 0 and the zero [Time]. *)
Theorem Get_error_zero_result l id policy now l' r err :
  Get l id policy now = Ok (l', r, Some err) →
  r = zeroResult
  ∧ res_Total r = 0 ∧ res_Remaining r = 0 ∧ res_Duration r = 0 ∧ res_Reset r = 0.
Proof.
  unfold Get.
  destruct (Z.of_nat (length policy) mod 2 =? 1).
  - intros Heq. inversion Heq. subst. repeat split.
  - intros Heq. apply getResult_no_error in Heq. discriminate.
Qed.

Lemma Get_error_zero_result_witness :
  Get limiter0 "a" [10; 1000; 1] 0
  = Ok (limiter0, zeroResult, Some "fastlimiter: must be paired values")
  ∧ zeroResult = zeroResult
  ∧ res_Total zeroResult = 0 ∧ res_Remaining zeroResult = 0
  ∧ res_Duration zeroResult = 0 ∧ res_Reset zeroResult = 0.
Proof.
  assert (H : Get limiter0 "a" [10; 1000; 1] 0
              = Ok (limiter0, zeroResult, Some "fastlimiter: must be paired values"))
    by reflexivity.
  split; [exact H|].
  exact (Get_error_zero_result limiter0 "a" [10; 1000; 1] 0 limiter0 zeroResult _ H).
Defined.

(** ** [initCacheItem] *)

Lemma index_in_range (args : list Z) i :
  0 <= i < Z.of_nat (length args) → ∃ v, index args i = Ok v.
Proof.
  intros Hi.
  destruct (lookup_lt_is_Some_2 args (Z.to_nat i)) as [v Hv]; [lia|].
  exists v. apply index_lookup; [lia | exact Hv].
Qed.

Lemma tier_index_first : sub32 (mul32 1 2) 2 = 0 ∧ sub32 (mul32 1 2) 1 = 1.
Proof. split; reflexivity. Qed.

Lemma tier_index_next idx n :
  0 <= idx → 2 * (idx + 1) <= n → n < 2 ^ 31 →
  add32 idx 1 = idx + 1
  ∧ sub32 (mul32 (add32 idx 1) 2) 2 = 2 * idx
  ∧ sub32 (mul32 (add32 idx 1) 2) 1 = 2 * idx + 1.
Proof.
  intros H0 Hn Hb. unfold add32, sub32, mul32.
  rewrite (wrap32_id (idx + 1)) by (unfold in_int32; lia).
  rewrite (wrap32_id ((idx + 1) * 2)) by (unfold in_int32; lia).
  rewrite !wrap32_id by (unfold in_int32; lia). lia.
Qed.

Lemma policyCount_half (args : list Z) :
  Z.of_nat (length args) < 2 ^ 31 →
  wrap32 (Z.of_nat (length args) / 2) = Z.of_nat (length args) / 2.
Proof.
  intros Hb. apply wrap32_id. unfold in_int32.
  assert (0 <= Z.of_nat (length args) / 2 <= Z.of_nat (length args)).
  { split; [apply Z.div_pos; lia | apply Z.div_le_upper_bound; lia]. }
  lia.
Qed.

Lemma status_ok_set l k s :
  status_ok l → 1 <= status_Index s → status_ok (setStatusMapValue l k s).
Proof.
  intros Hok Hs k' s'. simpl. rewrite lookup_insert.
  case_decide; [intros [= <-]; exact Hs | apply Hok].
Qed.

Lemma status_ok_setMapValue l k res : status_ok l → status_ok (setMapValue l k res).
Proof. intros Hok. exact Hok. Qed.

(** With a policy of one pair [initCacheItem] leaves the status map alone. *)
Lemma initCacheItem_single l key total duration now :
  initCacheItem l key [total; duration] now
  = let res := mkItem total (sub32 total 1) (ms duration) (now + ms duration) in
    Ok (setMapValue l key res, res).
Proof. reflexivity. Qed.

(** With no status item yet, [initCacheItem] stores one with index 1 and
    takes the first pair of the policy. *)
Lemma initCacheItem_no_status l key total duration rest now :
  status l !! statusKeyOf key = None →
  initCacheItem l key (total :: duration :: rest) now
  = let res := mkItem total (sub32 total 1) (ms duration) (now + ms duration) in
    let l1 := if 1 <? wrap32 (Z.of_nat (length (total :: duration :: rest)) / 2)
              then setStatusMapValue l (statusKeyOf key)
                     (mkStatus 1 (now + ms duration * 2))
              else l in
    Ok (setMapValue l1 key res, res).
Proof.
  intros Hnone. unfold initCacheItem, stepStatus, getStatusMapValue.
  rewrite Hnone.
  change (index (total :: duration :: rest) 0) with (Ok (A:=Z) total).
  change (index (total :: duration :: rest) 1) with (Ok (A:=Z) duration).
  cbn [mbind outcome_bind].
  destruct (1 <? _); reflexivity.
Qed.

(** From the last pair of the policy, or beyond it, [initCacheItem] goes
    back to the first pair: the index of the status item becomes 1. *)
Lemma initCacheItem_wraps l key total duration rest now s :
  1 < wrap32 (Z.of_nat (length (total :: duration :: rest)) / 2) →
  status l !! statusKeyOf key = Some s →
  wrap32 (Z.of_nat (length (total :: duration :: rest)) / 2) <= status_Index s →
  initCacheItem l key (total :: duration :: rest) now
  = let res := mkItem total (sub32 total 1) (ms duration) (now + ms duration) in
    Ok (mkLimiter (<[statusKeyOf key := mkStatus 1 (now + ms duration * 2)]> (status l))
          (<[key := res]> (store l)) (options l), res).
Proof.
  intros Hpc Hs Hidx. unfold initCacheItem, stepStatus, getStatusMapValue.
  set (pc := wrap32 _) in *.
  rewrite Hs.
  change (index (total :: duration :: rest) 0) with (Ok (A:=Z) total).
  change (index (total :: duration :: rest) 1) with (Ok (A:=Z) duration).
  cbn [mbind outcome_bind].
  destruct (Z.ltb_spec 1 pc) as [_|Hle]; [|lia].
  destruct (Z.leb_spec pc (status_Index s)) as [_|Hlt]; [|lia].
  cbn [status_Index].
  destruct tier_index_first as [-> ->].
  change (index (total :: duration :: rest) 0) with (Ok (A:=Z) total).
  change (index (total :: duration :: rest) 1) with (Ok (A:=Z) duration).
  cbn [mbind outcome_bind]. unfold setMapValue, setStatusMapValue. cbn [status store options].
  rewrite insert_insert_eq. reflexivity.
Qed.

(** Below the last pair, [initCacheItem] moves the index of the status
    item one up and takes the pair at the new index. *)
Lemma initCacheItem_escalates l key total duration rest now s :
  let args := total :: duration :: rest in
  Z.of_nat (length args) < 2 ^ 31 →
  1 < wrap32 (Z.of_nat (length args) / 2) →
  status l !! statusKeyOf key = Some s →
  0 <= status_Index s < wrap32 (Z.of_nat (length args) / 2) →
  ∃ total' duration',
    args !! Z.to_nat (2 * status_Index s) = Some total'
    ∧ args !! Z.to_nat (2 * status_Index s + 1) = Some duration'
    ∧ initCacheItem l key args now
      = let res := mkItem total' (sub32 total' 1) (ms duration') (now + ms duration') in
        Ok (mkLimiter
              (<[statusKeyOf key := mkStatus (status_Index s + 1) (now + ms duration' * 2)]>
                 (status l))
              (<[key := res]> (store l)) (options l), res).
Proof.
  intros args Hb Hmulti Hs Hidx.
  pose proof (policyCount_half args Hb) as Hpc.
  assert (Hhalf : 2 * (Z.of_nat (length args) / 2) <= Z.of_nat (length args))
    by (apply Z.mul_div_le; lia).
  destruct (tier_index_next (status_Index s) (Z.of_nat (length args)))
    as (Hadd & Hi0 & Hi1); [lia | lia | lia |].
  destruct (lookup_lt_is_Some_2 args (Z.to_nat (2 * status_Index s)))
    as [total' Ht]; [lia|].
  destruct (lookup_lt_is_Some_2 args (Z.to_nat (2 * status_Index s + 1)))
    as [duration' Hd]; [lia|].
  exists total', duration'. split; [exact Ht|]. split; [exact Hd|].
  unfold initCacheItem, stepStatus, getStatusMapValue. fold args.
  set (pc := wrap32 _) in *.
  rewrite Hs.
  change (index args 0) with (Ok (A:=Z) total).
  change (index args 1) with (Ok (A:=Z) duration).
  cbn [mbind outcome_bind].
  destruct (Z.ltb_spec 1 pc) as [_|Hle]; [|lia].
  destruct (Z.leb_spec pc (status_Index s)) as [Hge|_]; [lia|].
  cbn [status_Index]. rewrite Hi0, Hi1, Hadd.
  assert (H0 : 0 <= 2 * status_Index s) by lia.
  assert (H1 : 0 <= 2 * status_Index s + 1) by lia.
  rewrite (index_lookup _ _ _ H0 Ht), (index_lookup _ _ _ H1 Hd).
  cbn [mbind outcome_bind]. unfold setMapValue, setStatusMapValue. cbn [status store options].
  rewrite insert_insert_eq. reflexivity.
Qed.

(** [initCacheItem] on any policy of pairs: it does not panic, it stores
    the item it returns under the key, and that item is a full window
    that ends its duration from [now]. *)
Lemma initCacheItem_ok l key (args : list Z) now :
  status_ok l → args ≠ [] → Nat.Even (length args) →
  Z.of_nat (length args) < 2 ^ 31 →
  ∃ l' res,
    initCacheItem l key args now = Ok (l', res)
    ∧ store l' = <[key := res]> (store l)
    ∧ options l' = options l
    ∧ status_ok l'
    ∧ item_Remaining res = sub32 (item_Total res) 1
    ∧ item_Expire res = now + item_Duration res.
Proof.
  intros Hok Hne Heven Hb.
  destruct args as [|total [|duration rest]]; [done | | ].
  { destruct Heven as [k Hk]. simpl in Hk. lia. }
  remember (wrap32 (Z.of_nat (length (total :: duration :: rest)) / 2)) as pc eqn:Epc.
  destruct (status l !! statusKeyOf key) as [s|] eqn:Hs.
  - pose proof (Hok _ _ Hs) as Hidx.
    destruct (Z.lt_ge_cases 1 pc) as [Hpc|Hpc].
    + destruct (Z.lt_ge_cases (status_Index s) pc)
        as [Hlt|Hge].
      * rewrite Epc in Hpc, Hlt.
        destruct (initCacheItem_escalates l key total duration rest now s Hb Hpc Hs)
          as (t' & d' & _ & _ & Heq); [split; [lia | exact Hlt]|].
        rewrite Heq. cbn zeta.
        eexists _, _. split; [reflexivity|]. cbn [store options item_Total
          item_Remaining item_Expire item_Duration].
        repeat split.
        intros k' s'. cbn [status]. rewrite lookup_insert.
        case_decide; [intros [= <-]; cbn; lia | apply Hok].
      * rewrite Epc in Hpc, Hge.
        rewrite (initCacheItem_wraps l key total duration rest now s Hpc Hs Hge).
        cbn zeta. eexists _, _. split; [reflexivity|].
        cbn [store options item_Total item_Remaining item_Expire item_Duration].
        repeat split.
        intros k' s'. cbn [status]. rewrite lookup_insert.
        case_decide; [intros [= <-]; cbn; lia | apply Hok].
    + unfold initCacheItem, stepStatus.
      change (index (total :: duration :: rest) 0) with (Ok (A:=Z) total).
      change (index (total :: duration :: rest) 1) with (Ok (A:=Z) duration).
      cbn [mbind outcome_bind]. rewrite <- Epc.
      destruct (Z.ltb_spec 1 pc) as [Hlt|_]; [lia|].
      cbn [mbind outcome_bind].
      eexists _, _. split; [reflexivity|]. repeat split. exact Hok.
  - rewrite (initCacheItem_no_status l key total duration rest now Hs).
    cbn zeta. eexists _, _. split; [reflexivity|].
    destruct (1 <? _).
    + repeat split. apply status_ok_setMapValue, status_ok_set; [exact Hok | cbn; lia].
    + repeat split. exact Hok.
Qed.

(** ** [getLimit] and [Get] *)

Lemma Get_even l id (policy : list Z) now :
  Nat.Even (length policy) →
  Get l id policy now = getResult l (keyOf l id) (policyOf l policy) now.
Proof.
  intros Heven. unfold Get, policyOf, keyOf.
  rewrite (even_length_mod _ Heven). reflexivity.
Qed.

Lemma policyOf_shape l (policy : list Z) :
  Nat.Even (length policy) → Z.of_nat (length policy) < 2 ^ 31 →
  policyOf l policy ≠ [] ∧ Nat.Even (length (policyOf l policy))
  ∧ Z.of_nat (length (policyOf l policy)) < 2 ^ 31.
Proof.
  intros Heven Hb. unfold policyOf.
  destruct (Z.eqb_spec (Z.of_nat (length policy)) 0) as [H0|Hn0].
  - split; [discriminate|]. split; [exists 1%nat; reflexivity | simpl; lia].
  - split; [|split; assumption]. intros ->. simpl in Hn0. lia.
Qed.

Lemma policyOf_nonempty l (policy : list Z) : policy ≠ [] → policyOf l policy = policy.
Proof. intros Hne. unfold policyOf. destruct policy; [done | reflexivity]. Qed.

Lemma getLimit_starts l key args now :
  starts_window l key now → getLimit l key args now = initCacheItem l key args now.
Proof.
  unfold starts_window, getLimit, getMapValue.
  destruct (store l !! key) as [res|]; [|reflexivity].
  intros Hlt. destruct (Z.ltb_spec (item_Expire res) now); [reflexivity | lia].
Qed.

Lemma getLimit_live l key args now res :
  store l !! key = Some res → now <= item_Expire res →
  getLimit l key args now
  = if item_Remaining res =? -1 then Ok (l, res)
    else
      let res' := mkItem (item_Total res) (add32 (item_Remaining res) (-1))
                    (item_Duration res) (item_Expire res) in
      Ok (setMapValue l key res', res').
Proof.
  intros Hres Hle. unfold getLimit, getMapValue. rewrite Hres.
  destruct (Z.ltb_spec (item_Expire res) now); [lia | reflexivity].
Qed.

Lemma initCacheItem_store l key args now l' res :
  initCacheItem l key args now = Ok (l', res) →
  store l' = <[key := res]> (store l) ∧ options l' = options l.
Proof.
  unfold initCacheItem, stepStatus, getStatusMapValue.
  destruct (index args 0) as [total|]; [|discriminate].
  destruct (index args 1) as [duration|]; [|discriminate].
  cbn [mbind outcome_bind].
  destruct (1 <? _); [destruct (status l !! statusKeyOf key) as [s|]|].
  - destruct (index args (sub32 (mul32 _ 2) 2)) as [t'|]; [|discriminate].
    cbn [mbind outcome_bind].
    destruct (index args (sub32 (mul32 _ 2) 1)) as [d'|]; [|discriminate].
    cbn [mbind outcome_bind]. intros [= <- <-]. split; reflexivity.
  - cbn [mbind outcome_bind]. intros [= <- <-]. split; reflexivity.
  - cbn [mbind outcome_bind]. intros [= <- <-]. split; reflexivity.
Qed.

Lemma getLimit_store l key args now l' res :
  getLimit l key args now = Ok (l', res) →
  store l' !! key = Some res
  ∧ dom (store l') = {[key]} ∪ dom (store l)
  ∧ options l' = options l.
Proof.
  unfold getLimit, getMapValue.
  assert (Hinit : initCacheItem l key args now = Ok (l', res) →
                  store l' !! key = Some res
                  ∧ dom (store l') = {[key]} ∪ dom (store l)
                  ∧ options l' = options l).
  { intros Heq. apply initCacheItem_store in Heq as [-> ->].
    rewrite lookup_insert_eq, dom_insert_L. done. }
  destruct (store l !! key) as [old|] eqn:Hold; [|exact Hinit].
  destruct (item_Expire old <? now); [exact Hinit|].
  assert (Hin : {[key]} ∪ dom (store l) = dom (store l)).
  { apply subseteq_union_1_L, singleton_subseteq_l, elem_of_dom. eauto. }
  destruct (item_Remaining old =? -1).
  - intros Heq. injection Heq as <- <-. rewrite Hin. done.
  - intros Heq. injection Heq as <- <-. cbn [store setMapValue options].
    rewrite lookup_insert_eq, dom_insert_L. done.
Qed.

Lemma Get_store l id policy now l' r :
  Get l id policy now = Ok (l', r, None) →
  (∃ res, store l' !! keyOf l id = Some res ∧ r = resultOf res)
  ∧ dom (store l') = {[keyOf l id]} ∪ dom (store l)
  ∧ options l' = options l.
Proof.
  unfold Get. fold (keyOf l id).
  destruct (Z.of_nat (length policy) mod 2 =? 1); [discriminate|].
  unfold getResult.
  destruct (getLimit l (keyOf l id) _ now) as [[l1 res]|] eqn:Hlim; [|discriminate].
  cbn [mbind outcome_bind]. intros [= <- <-].
  apply getLimit_store in Hlim as (Hres & Hdom & Hopt).
  split; [exists res; done | done].
Qed.

(** [Get] on a policy of pairs, whatever its values: no error and no
    panic; the result is read off the item of the identifier. *)
Lemma Get_even_ok l id (policy : list Z) now :
  status_ok l → Nat.Even (length policy) → Z.of_nat (length policy) < 2 ^ 31 →
  ∃ l' res,
    Get l id policy now = Ok (l', resultOf res, None)
    ∧ store l' !! keyOf l id = Some res
    ∧ options l' = options l
    ∧ status_ok l'.
Proof.
  intros Hok Heven Hb. rewrite (Get_even _ _ _ _ Heven).
  destruct (policyOf_shape l policy Heven Hb) as (Hne & Heven' & Hb').
  unfold getResult.
  destruct (initCacheItem_ok l (keyOf l id) (policyOf l policy) now Hok Hne Heven' Hb')
    as (li & resi & Hinit & Hstore & Hopt & Hoki & _).
  destruct (store l !! keyOf l id) as [old|] eqn:Hold.
  - destruct (Z.lt_ge_cases (item_Expire old) now) as [Hlt|Hge].
    + rewrite getLimit_starts by (unfold starts_window; rewrite Hold; exact Hlt).
      rewrite Hinit. cbn [mbind outcome_bind].
      exists li, resi. rewrite Hstore, lookup_insert_eq. done.
    + rewrite (getLimit_live _ _ _ _ old Hold) by lia.
      destruct (item_Remaining old =? -1); cbn [mbind outcome_bind].
      * exists l, old. done.
      * eexists _, _. split; [reflexivity|].
        cbn [store setMapValue options]. rewrite lookup_insert_eq. done.
  - rewrite getLimit_starts by (unfold starts_window; rewrite Hold; exact I).
    rewrite Hinit. cbn [mbind outcome_bind].
    exists li, resi. rewrite Hstore, lookup_insert_eq. done.
Qed.

(** [New] makes a limiter whose status items are in order, and [Get]
    keeps them so. *)
Lemma New_status_ok opts : status_ok (New opts).
Proof. intros k s. unfold New. cbn [status]. rewrite lookup_empty. discriminate. Qed.

Lemma Get_never_seen l id total duration rest now :
  let policy := total :: duration :: rest in
  Nat.Even (length policy) → never_seen l id →
  let res := mkItem total (sub32 total 1) (ms duration) (now + ms duration) in
  let l1 := if 1 <? wrap32 (Z.of_nat (length policy) / 2)
            then setStatusMapValue l (statusKeyOf (keyOf l id))
                   (mkStatus 1 (now + ms duration * 2))
            else l in
  Get l id policy now = Ok (setMapValue l1 (keyOf l id) res, resultOf res, None).
Proof.
  intros policy Heven [Hstore Hstatus] res l1.
  rewrite (Get_even _ _ _ _ Heven).
  rewrite policyOf_nonempty by discriminate.
  unfold getResult.
  rewrite getLimit_starts by (unfold starts_window; rewrite Hstore; exact I).
  unfold policy. rewrite (initCacheItem_no_status _ _ _ _ _ _ Hstatus).
  reflexivity.
Qed.

(** C4: the code at the inputs where it departs from the claim.  [Get]
    checks that the values of the policy come in pairs and never looks at
    their sign: on [[-1; 10]] and on [[10; 0]], for an identifier never
    seen, it returns a [nil] error, with total -1 and remaining -2 for the
    first and a window of no length for the second, and it stores an item
    for the identifier, where an error and an untouched store are due. *)
Theorem Get_nonpositive_policy_accepted :
  Get limiter0 "a" [-1; 10] 0
  = Ok (mkLimiter ∅ {[ "limit:a" := mkItem (-1) (-2) (ms 10) (ms 10) ]} (options limiter0),
        mkResult (-1) (-2) (ms 10) (ms 10), None)
  ∧ Get limiter0 "a" [10; 0] 0
    = Ok (mkLimiter ∅ {[ "limit:a" := mkItem 10 9 0 0 ]} (options limiter0),
          mkResult 10 9 0 0, None)
  ∧ ¬ (∃ l' r err, Get limiter0 "a" [-1; 10] 0 = Ok (l', r, Some err))
  ∧ ¬ (∃ l' r err, Get limiter0 "a" [10; 0] 0 = Ok (l', r, Some err)).
Proof.
  assert (H1 : Get limiter0 "a" [-1; 10] 0
    = Ok (mkLimiter ∅ {[ "limit:a" := mkItem (-1) (-2) (ms 10) (ms 10) ]} (options limiter0),
          mkResult (-1) (-2) (ms 10) (ms 10), None)) by (vm_compute; reflexivity).
  assert (H2 : Get limiter0 "a" [10; 0] 0
    = Ok (mkLimiter ∅ {[ "limit:a" := mkItem 10 9 0 0 ]} (options limiter0),
          mkResult 10 9 0 0, None)) by (vm_compute; reflexivity).
  split; [exact H1|]. split; [exact H2|].
  split; intros (l' & r & err & Heq); [rewrite H1 in Heq | rewrite H2 in Heq];
    discriminate.
Qed.

(** ** The end of a window *)

(** C8 (as amended): an item of the store is stale when its [Expire] is
    before [now], strictly.  [Get] then starts a new window: the item is
    made anew with remaining = total - 1 (in [int32]) and an [Expire] one
    duration from [now].  At the instant [Expire] itself, as at any
    instant before it, the item is still the one in use: [Get] takes one
    off its remaining, or returns it as it is when remaining is -1. *)
Theorem Get_expiry_boundary l id (policy : list Z) now old :
  status_ok l → Nat.Even (length policy) → Z.of_nat (length policy) < 2 ^ 31 →
  store l !! keyOf l id = Some old →
  (item_Expire old < now →
   ∃ l' res,
     Get l id policy now = Ok (l', resultOf res, None)
     ∧ store l' !! keyOf l id = Some res
     ∧ item_Remaining res = sub32 (item_Total res) 1
     ∧ item_Expire res = now + item_Duration res)
  ∧ (now <= item_Expire old →
     Get l id policy now
     = if item_Remaining old =? -1 then Ok (l, resultOf old, None)
       else
         let res := mkItem (item_Total old) (add32 (item_Remaining old) (-1))
                      (item_Duration old) (item_Expire old) in
         Ok (setMapValue l (keyOf l id) res, resultOf res, None)).
Proof.
  intros Hok Heven Hb Hold. rewrite (Get_even _ _ _ _ Heven). unfold getResult.
  split.
  - intros Hlt.
    destruct (policyOf_shape l policy Heven Hb) as (Hne & Heven' & Hb').
    destruct (initCacheItem_ok l (keyOf l id) (policyOf l policy) now Hok Hne Heven' Hb')
      as (li & resi & Hinit & Hstore & _ & _ & Hrem & Hexp).
    rewrite getLimit_starts by (unfold starts_window; rewrite Hold; exact Hlt).
    rewrite Hinit. cbn [mbind outcome_bind].
    exists li, resi. rewrite Hstore, lookup_insert_eq. done.
  - intros Hle. rewrite (getLimit_live _ _ _ _ old Hold Hle).
    destruct (item_Remaining old =? -1); reflexivity.
Qed.

Lemma Get_expiry_boundary_witness :
  (ms 100 < ms 101 →
   ∃ l' res,
     Get after_one_request "a" [10; 100] (ms 101) = Ok (l', resultOf res, None)
     ∧ store l' !! keyOf after_one_request "a" = Some res
     ∧ item_Remaining res = sub32 (item_Total res) 1
     ∧ item_Expire res = ms 101 + item_Duration res)
  ∧ (ms 101 <= ms 100 →
     Get after_one_request "a" [10; 100] (ms 101)
     = if 9 =? -1
       then Ok (after_one_request, resultOf (mkItem 10 9 (ms 100) (ms 100)), None)
       else
         let res := mkItem 10 (add32 9 (-1)) (ms 100) (ms 100) in
         Ok (setMapValue after_one_request (keyOf after_one_request "a") res,
             resultOf res, None)).
Proof.
  apply (Get_expiry_boundary after_one_request "a" [10; 100] (ms 101)
           (mkItem 10 9 (ms 100) (ms 100))).
  - intros k s. unfold after_one_request. cbn [status].
    rewrite lookup_empty. discriminate.
  - exists 1%nat. reflexivity.
  - simpl. lia.
  - reflexivity.
Defined.

(** C8, the claim as it stands fails at the instant [Expire] itself: the
    window of ["a"] that started at 0 ends at 100 ms, and a [Get] at
    100 ms takes one off the old item (8 remain, the end of the window
    stays at 100 ms) where a new window would have 9 remaining. *)
Lemma Get_at_expiry_decrements :
  Get limiter0 "a" [10; 100] 0
  = Ok (after_one_request, mkResult 10 9 (ms 100) (ms 100), None)
  ∧ store after_one_request !! "limit:a" = Some (mkItem 10 9 (ms 100) (ms 100))
  ∧ Get after_one_request "a" [10; 100] (ms 100)
    = Ok (mkLimiter ∅ {[ "limit:a" := mkItem 10 8 (ms 100) (ms 100) ]} (options limiter0),
          mkResult 10 8 (ms 100) (ms 100), None)
  ∧ ¬ (∃ l' r, Get after_one_request "a" [10; 100] (ms 100) = Ok (l', r, None)
               ∧ res_Remaining r = res_Total r - 1).
Proof.
  assert (H : Get after_one_request "a" [10; 100] (ms 100)
    = Ok (mkLimiter ∅ {[ "limit:a" := mkItem 10 8 (ms 100) (ms 100) ]} (options limiter0),
          mkResult 10 8 (ms 100) (ms 100), None)) by (vm_compute; reflexivity).
  split; [vm_compute; reflexivity|]. split; [reflexivity|]. split; [exact H|].
  intros (l' & r & Heq & Hrem). rewrite H in Heq. injection Heq as _ <-.
  cbn in Hrem. lia.
Qed.

(** ** [Remove] *)

Lemma Remove_never_seen l id : never_seen (Remove l id) id.
Proof.
  unfold never_seen, keyOf, Remove. cbn [store status options].
  split; apply lookup_delete_eq.
Qed.

(** C7: [Remove] deletes the item and the status item of the identifier,
    and the [Get] that follows does what it does for an identifier never
    seen: against any limiter [l0] of the same options that has nothing
    for the identifier, it returns the same result and the same error, and
    leaves the same item and the same status item for the identifier.
    What the limiter holds for other keys is what it held before. *)
Theorem Remove_then_Get l l0 id (policy : list Z) now :
  options l0 = options l → never_seen l0 id →
  never_seen (Remove l id) id
  ∧ ∃ l1 l0' r err,
      Get (Remove l id) id policy now = Ok (l1, r, err)
      ∧ Get l0 id policy now = Ok (l0', r, err)
      ∧ store l1 !! keyOf l id = store l0' !! keyOf l id
      ∧ status l1 !! statusKeyOf (keyOf l id) = status l0' !! statusKeyOf (keyOf l id)
      ∧ (∀ k, k ≠ keyOf l id → store l1 !! k = store l !! k)
      ∧ (∀ k, k ≠ statusKeyOf (keyOf l id) → status l1 !! k = status l !! k).
Proof.
  intros Hopt Hnew0. pose proof (Remove_never_seen l id) as HnewR.
  split; [exact HnewR|].
  assert (Hk0 : keyOf l0 id = keyOf l id) by (unfold keyOf; rewrite Hopt; reflexivity).
  assert (HkR : keyOf (Remove l id) id = keyOf l id) by reflexivity.
  assert (Hother : ∀ k, k ≠ keyOf l id → store (Remove l id) !! k = store l !! k).
  { intros k Hk. unfold Remove. cbn [store]. apply lookup_delete_ne. 
    unfold keyOf in Hk. congruence. }
  assert (Hothers : ∀ k, k ≠ statusKeyOf (keyOf l id) →
                         status (Remove l id) !! k = status l !! k).
  { intros k Hk. unfold Remove. cbn [status]. apply lookup_delete_ne.
    unfold keyOf in Hk. congruence. }
  destruct (Nat.Even_or_Odd (length policy)) as [Heven|Hodd].
  - assert (Hshape : ∃ total duration rest P,
              policyOf (Remove l id) policy = total :: duration :: rest
              ∧ policyOf l0 policy = total :: duration :: rest
              ∧ Nat.Even (length (total :: duration :: rest))
              ∧ P = total :: duration :: rest).
    { unfold policyOf, defaultPolicy. rewrite Hopt. cbn [options Remove].
      destruct policy as [|total [|duration rest]].
      - eexists _, _, _, _. repeat split. exists 1%nat. reflexivity.
      - destruct Heven as [k Hk]. simpl in Hk. lia.
      - eexists _, _, _, _. repeat split. exact Heven. }
    destruct Hshape as (total & duration & rest & P & HpR & Hp0 & HevenP & _).
    rewrite !(Get_even _ _ _ _ Heven). unfold getResult.
    rewrite HpR, Hp0, HkR, Hk0.
    destruct HnewR as [HsR HtR]. destruct Hnew0 as [Hs0 Ht0].
    rewrite HkR in HsR, HtR. rewrite Hk0 in Hs0, Ht0.
    rewrite !getLimit_starts
      by (unfold starts_window; first [rewrite HsR | rewrite Hs0]; exact I).
    rewrite (initCacheItem_no_status _ _ _ _ _ _ HtR).
    rewrite (initCacheItem_no_status _ _ _ _ _ _ Ht0).
    cbn zeta. cbn [mbind outcome_bind].
    eexists _, _, _, _. split; [reflexivity|]. split; [reflexivity|].
    destruct (1 <? _); unfold setMapValue, setStatusMapValue; cbn [status store];
      rewrite !lookup_insert_eq; (split; [reflexivity|]).
    + split; [reflexivity|].
      split; intros k Hk.
      * rewrite lookup_insert_ne by congruence. apply Hother, Hk.
      * rewrite lookup_insert_ne by congruence. apply Hothers, Hk.
    + rewrite HtR, Ht0. split; [reflexivity|].
      split; intros k Hk.
      * rewrite lookup_insert_ne by congruence. apply Hother, Hk.
      * apply Hothers, Hk.
  - rewrite !(Get_unpaired _ _ _ _ (odd_length_mod _ Hodd)).
    eexists _, _, _, _. split; [reflexivity|]. split; [reflexivity|].
    destruct HnewR as [HsR HtR]. destruct Hnew0 as [Hs0 Ht0].
    rewrite HkR in HsR, HtR. rewrite Hk0 in Hs0, Ht0.
    rewrite HsR, Hs0, HtR, Ht0. repeat split; assumption.
Qed.

Lemma Remove_then_Get_witness :
  never_seen (Remove after_second_window "a") "a"
  ∧ ∃ l1 l0' r err,
      Get (Remove after_second_window "a") "a" two_tiers (ms 150) = Ok (l1, r, err)
      ∧ Get limiter0 "a" two_tiers (ms 150) = Ok (l0', r, err)
      ∧ store l1 !! keyOf after_second_window "a"
        = store l0' !! keyOf after_second_window "a"
      ∧ status l1 !! statusKeyOf (keyOf after_second_window "a")
        = status l0' !! statusKeyOf (keyOf after_second_window "a")
      ∧ (∀ k, k ≠ keyOf after_second_window "a" →
              store l1 !! k = store after_second_window !! k)
      ∧ (∀ k, k ≠ statusKeyOf (keyOf after_second_window "a") →
              status l1 !! k = status after_second_window !! k).
Proof.
  apply (Remove_then_Get after_second_window limiter0 "a" two_tiers (ms 150)).
  - reflexivity.
  - split; reflexivity.
Defined.

(** ** The choice of the tier *)

(** C1 (as amended): under a policy of several pairs, when the status
    item of the identifier is at the last pair and its [Expire] is not
    before [now], the window [Get] starts next is of the first pair: the
    index goes back to 1, it does not stay at the last pair.  The status
    item is stored anew with index 1 and an [Expire] two durations of the
    first pair from [now]. *)
Theorem Get_last_tier_wraps l id total duration rest now s :
  let args := total :: duration :: rest in
  Nat.Even (length args) → 1 < Z.of_nat (length args) / 2 →
  Z.of_nat (length args) < 2 ^ 31 →
  starts_window l (keyOf l id) now →
  status l !! statusKeyOf (keyOf l id) = Some s →
  status_Index s = Z.of_nat (length args) / 2 →
  now <= status_Expire s →
  ∃ l',
    Get l id args now
    = Ok (l', mkResult total (sub32 total 1) (ms duration) (now + ms duration), None)
    ∧ status l' !! statusKeyOf (keyOf l id) = Some (mkStatus 1 (now + ms duration * 2))
    ∧ store l' !! keyOf l id
      = Some (mkItem total (sub32 total 1) (ms duration) (now + ms duration)).
Proof.
  intros args Heven Hmulti Hb Hstart Hs Hlast _.
  pose proof (policyCount_half args Hb) as Hpc.
  rewrite (Get_even _ _ _ _ Heven).
  rewrite policyOf_nonempty by discriminate.
  unfold getResult. rewrite (getLimit_starts _ _ _ _ Hstart).
  unfold args in *.
  rewrite (initCacheItem_wraps l (keyOf l id) total duration rest now s)
    by (first [exact Hs | lia]).
  cbn zeta. cbn [mbind outcome_bind].
  eexists. split; [reflexivity|]. cbn [status store].
  rewrite !lookup_insert_eq. done.
Qed.

Lemma Get_last_tier_wraps_witness :
  ∃ l',
    Get after_second_window "a" [3; 100; 2; 200] (ms 302)
    = Ok (l', mkResult 3 (sub32 3 1) (ms 100) (ms 302 + ms 100), None)
    ∧ status l' !! statusKeyOf (keyOf after_second_window "a")
      = Some (mkStatus 1 (ms 302 + ms 100 * 2))
    ∧ store l' !! keyOf after_second_window "a"
      = Some (mkItem 3 (sub32 3 1) (ms 100) (ms 302 + ms 100)).
Proof.
  apply (Get_last_tier_wraps after_second_window "a" 3 100 [2; 200] (ms 302)
           (mkStatus 2 (ms 501))).
  - exists 2%nat. reflexivity.
  - reflexivity.
  - simpl. lia.
  - vm_compute. reflexivity.
  - reflexivity.
  - reflexivity.
  - vm_compute. discriminate.
Defined.

(** C1, the claim as it stands fails.  Under [two_tiers] the identifier
    ["a"] uses up the first window, then at 101 ms is given the second
    pair: the status item is at index 2, the last, until 501 ms.  The
    window of the second pair ends at 301 ms.  The [Get] at 302 ms starts
    a window of the first pair (total 3, 100 ms) and the index is 1, not
    [min (2 + 1) 2 = 2]. *)
Lemma Get_last_tier_not_pinned :
  (∃ rs, run limiter0 [at_ms "a" two_tiers 0; at_ms "a" two_tiers 101]
         = Ok (after_second_window, rs))
  ∧ status after_second_window !! "{limit:a}:S" = Some (mkStatus 2 (ms 501))
  ∧ ms 302 <= ms 501
  ∧ starts_window after_second_window "limit:a" (ms 302)
  ∧ ∃ l',
      Get after_second_window "a" two_tiers (ms 302)
      = Ok (l', mkResult 3 2 (ms 100) (ms 402), None)
      ∧ status l' !! "{limit:a}:S" = Some (mkStatus 1 (ms 502))
      ∧ status_Index <$> status l' !! "{limit:a}:S" ≠ Some (Z.min (2 + 1) 2).
Proof.
  split; [eexists; vm_compute; reflexivity|].
  split; [reflexivity|].
  split; [vm_compute; discriminate|].
  split; [vm_compute; reflexivity|].
  eexists. split; [vm_compute; reflexivity|].
  split; [reflexivity|].
  vm_compute. discriminate.
Qed.

(** C2: the code at the input where it departs from the claim.  The first
    [Get] of ["a"] under [two_tiers], at 0, stores the status item with
    index 1 and an [Expire] of 200 ms.  At 1000 ms that instant is long
    past, and so is the end of the window (100 ms); yet the [Get] at
    1000 ms reads the index, never the [Expire], and starts a window of
    the second pair (total 2, 200 ms), not of the first. *)
Theorem Get_ignores_status_expire :
  Get limiter0 "a" two_tiers 0
  = Ok (after_first_window, mkResult 3 2 (ms 100) (ms 100), None)
  ∧ status after_first_window !! "{limit:a}:S" = Some (mkStatus 1 (ms 200))
  ∧ ms 200 < ms 1000
  ∧ starts_window after_first_window "limit:a" (ms 1000)
  ∧ ∃ l',
      Get after_first_window "a" two_tiers (ms 1000)
      = Ok (l', mkResult 2 1 (ms 200) (ms 1200), None)
      ∧ status l' !! "{limit:a}:S" = Some (mkStatus 2 (ms 1400)).
Proof.
  split; [vm_compute; reflexivity|].
  split; [reflexivity|].
  split; [reflexivity|].
  split; [vm_compute; reflexivity|].
  eexists. split; [vm_compute; reflexivity|]. reflexivity.
Qed.

(** ** [Clean] *)

(** [Clean] hands [Remove] the key of the store, and [Remove] puts the
    prefix in front of what it is handed: the key deleted is the prefix
    followed by the key of the stale item.  Where no such key is in use,
    [Clean] changes nothing. *)
Lemma Clean_changes_nothing l order now :
  (∀ k, is_Some (store l !! k) →
        store l !! (Prefix (options l) +:+ k) = None
        ∧ status l !! statusKeyOf (Prefix (options l) +:+ k) = None) →
  Clean l order now = l.
Proof.
  intros Hfree. unfold Clean. induction order as [|key rest IH]; [reflexivity|].
  cbn [Clean_range].
  destruct (store l !! key) as [value|] eqn:Hkey; [|exact IH].
  destruct (item_Expire value <? now); [|exact IH].
  destruct (Hfree key) as [Hs Ht]; [eauto|].
  assert (Hrem : Remove l key = l).
  { unfold Remove. rewrite (delete_id _ _ Hs), (delete_id _ _ Ht).
    destruct l; reflexivity. }
  rewrite Hrem. exact IH.
Qed.

(** C3: the code at the input where it departs from the claim.  After one
    [Get] of ["a"] at 0 under [[10; 100]] the store holds ["limit:a"] with
    an [Expire] of 100 ms.  [Clean] at 1000 ms, in whatever order it
    ranges, leaves the limiter as it is: the item is stale and still
    there, and [Count] is still 1.  The key [Remove] deleted is
    ["limit:limit:a"]. *)
Theorem Clean_keeps_expired_item :
  Get limiter0 "a" [10; 100] 0
  = Ok (after_one_request, mkResult 10 9 (ms 100) (ms 100), None)
  ∧ ∀ order,
      Clean after_one_request order (ms 1000) = after_one_request
      ∧ store (Clean after_one_request order (ms 1000)) !! "limit:a"
        = Some (mkItem 10 9 (ms 100) (ms 100))
      ∧ ms 100 < ms 1000
      ∧ Count (Clean after_one_request order (ms 1000)) = 1.
Proof.
  split; [vm_compute; reflexivity|].
  intros order.
  assert (Hsame : Clean after_one_request order (ms 1000) = after_one_request).
  { apply Clean_changes_nothing. intros k [v Hk].
    unfold after_one_request in *. cbn [store status options] in *.
    apply lookup_singleton_Some in Hk as [<- _].
    split; reflexivity. }
  rewrite Hsame. repeat split.
Qed.

(** ** One window of a single pair *)

(** The remaining of the [n]-th request of a window of quota [Q]. *)
Lemma remaining_step Q j :
  0 < Q < 2 ^ 31 → 1 <= j →
  (Z.max (Q - j) (-1) =? -1) = (Q <? j)
  ∧ (j <= Q → add32 (Z.max (Q - j) (-1)) (-1) = Z.max (Q - (j + 1)) (-1))
  ∧ (Q < j → Z.max (Q - j) (-1) = Z.max (Q - (j + 1)) (-1)).
Proof.
  intros HQ Hj. split; [|split].
  - destruct (Z.eqb_spec (Z.max (Q - j) (-1)) (-1)), (Z.ltb_spec Q j); lia.
  - intros Hle. unfold add32. rewrite wrap32_id by (unfold in_int32; lia). lia.
  - lia.
Qed.

(** A request within a window that [j] requests have been made in. *)
Lemma Get_within_window l id Q W e j t :
  0 < Q < 2 ^ 31 → 1 <= j →
  store l !! keyOf l id = Some (mkItem Q (Z.max (Q - j) (-1)) (ms W) e) →
  t <= e →
  ∃ l1,
    Get l id [Q; W] t
    = Ok (l1, mkResult Q (Z.max (Q - (j + 1)) (-1)) (ms W) e, None)
    ∧ store l1 !! keyOf l1 id = Some (mkItem Q (Z.max (Q - (j + 1)) (-1)) (ms W) e).
Proof.
  intros HQ Hj Hitem Ht.
  assert (Heven : Nat.Even (length [Q; W])) by (exists 1%nat; reflexivity).
  rewrite (Get_even _ _ _ _ Heven), policyOf_nonempty by discriminate.
  unfold getResult. rewrite (getLimit_live _ _ _ _ _ Hitem) by exact Ht.
  cbn [item_Remaining item_Total item_Duration item_Expire].
  destruct (remaining_step Q j HQ Hj) as (Htest & Hdown & Hstay).
  rewrite Htest.
  destruct (Z.ltb_spec Q j) as [Hover|Hunder]; cbn zeta; cbn [mbind outcome_bind].
  - exists l. rewrite <- (Hstay Hover). split; [reflexivity | exact Hitem].
  - eexists. rewrite (Hdown Hunder). split; [reflexivity|].
    unfold setMapValue, keyOf. cbn [store options]. apply lookup_insert_eq.
Qed.

Lemma run_cons l c cs l1 r e :
  Get l (call_id c) (call_policy c) (call_now c) = Ok (l1, r, e) →
  run l (c :: cs)
  = match run l1 cs with
    | Ok (l2, rs) => Ok (l2, (r, e) :: rs)
    | Panic => Panic
    end.
Proof.
  intros Hget. cbn [run]. rewrite Hget. cbn [mbind outcome_bind].
  destruct (run l1 cs) as [[l2 rs]|]; reflexivity.
Qed.

(** Within a window that [j] requests have been made in, the requests that
    follow count on down from [Q - j] and stop at -1. *)
Lemma run_within_window l id Q W e ts j :
  0 < Q < 2 ^ 31 → 1 <= j →
  store l !! keyOf l id = Some (mkItem Q (Z.max (Q - j) (-1)) (ms W) e) →
  Forall (λ t, t <= e) ts →
  ∃ l' rs,
    run l (mkCall id [Q; W] <$> ts) = Ok (l', rs)
    ∧ length rs = length ts
    ∧ ∀ n x, rs !! n = Some x →
        x = (mkResult Q (Z.max (Q - (j + Z.of_nat (S n))) (-1)) (ms W) e, None).
Proof.
  intros HQ Hj Hitem Hts. revert l j Hj Hitem.
  induction Hts as [|t ts Ht Hts IH]; intros l j Hj Hitem.
  - exists l, []. split; [reflexivity|]. split; [reflexivity|].
    intros n x Hn. rewrite lookup_nil in Hn. discriminate.
  - destruct (Get_within_window l id Q W e j t HQ Hj Hitem Ht) as (l1 & Hget & Hitem1).
    destruct (IH l1 (j + 1)) as (l' & rs & Hrun & Hlen & Hrs); [lia | exact Hitem1 |].
    rewrite fmap_cons.
    rewrite (run_cons l (mkCall id [Q; W] t) _ _ _ _ Hget), Hrun.
    eexists _, _. split; [reflexivity|]. split; [simpl; lia|].
    intros [|n] x Hn.
    + injection Hn as <-. replace (j + Z.of_nat 1) with (j + 1) by lia. reflexivity.
    + rewrite (Hrs n x Hn). do 3 f_equal. lia.
Qed.

(** C5: under a policy of one pair, quota [Q] and window [W], the requests
    of one window (the request at [t0] that starts it and requests no
    later than its end) return total [Q] and, for the [n]-th of them,
    remaining [max (Q - n) (-1)]: [Q - 1] for the first, 0 for the
    [Q]-th, -1 for every one after the [Q]-th, and never less than -1. *)
Theorem single_tier_window l id Q W t0 ts :
  0 < Q < 2 ^ 31 → 0 < W →
  starts_window l (keyOf l id) t0 →
  Forall (λ t, t <= t0 + ms W) ts →
  ∃ l' rs,
    run l (mkCall id [Q; W] <$> t0 :: ts) = Ok (l', rs)
    ∧ length rs = S (length ts)
    ∧ ∀ n r err, rs !! n = Some (r, err) →
        err = None
        ∧ res_Total r = Q
        ∧ res_Reset r = t0 + ms W
        ∧ res_Remaining r = Z.max (Q - Z.of_nat (S n)) (-1)
        ∧ -1 <= res_Remaining r
        ∧ (n = 0%nat → res_Remaining r = Q - 1)
        ∧ (Z.of_nat (S n) = Q → res_Remaining r = 0)
        ∧ (Q < Z.of_nat (S n) → res_Remaining r = -1).
Proof.
  intros HQ HW Hstart Hts.
  assert (Heven : Nat.Even (length [Q; W])) by (exists 1%nat; reflexivity).
  assert (Hfirst : sub32 Q 1 = Z.max (Q - 1) (-1)).
  { unfold sub32. rewrite wrap32_id by (unfold in_int32; lia). lia. }
  assert (Hget : Get l id [Q; W] t0
                 = Ok (setMapValue l (keyOf l id)
                         (mkItem Q (Z.max (Q - 1) (-1)) (ms W) (t0 + ms W)),
                       mkResult Q (Z.max (Q - 1) (-1)) (ms W) (t0 + ms W), None)).
  { rewrite (Get_even _ _ _ _ Heven), policyOf_nonempty by discriminate.
    unfold getResult. rewrite (getLimit_starts _ _ _ _ Hstart).
    rewrite initCacheItem_single. cbn zeta. cbn [mbind outcome_bind].
    rewrite Hfirst. reflexivity. }
  destruct (run_within_window
              (setMapValue l (keyOf l id)
                 (mkItem Q (Z.max (Q - 1) (-1)) (ms W) (t0 + ms W)))
              id Q W (t0 + ms W) ts 1 HQ) as (l' & rs & Hrun & Hlen & Hrs);
    [lia | unfold setMapValue, keyOf; cbn [store options]; apply lookup_insert_eq
     | exact Hts |].
  rewrite fmap_cons, (run_cons l (mkCall id [Q; W] t0) _ _ _ _ Hget), Hrun.
  eexists _, _. split; [reflexivity|]. split; [simpl; lia|].
  assert (Hall : ∀ n r err,
            ((mkResult Q (Z.max (Q - 1) (-1)) (ms W) (t0 + ms W), None) :: rs)
              !! n = Some (r, err) →
            err = None ∧ r = mkResult Q (Z.max (Q - Z.of_nat (S n)) (-1)) (ms W) (t0 + ms W)).
  { intros [|n] r err Hn.
    - injection Hn as <- <-. done.
    - apply Hrs in Hn. injection Hn as -> ->. split; [reflexivity|].
      do 2 f_equal. lia. }
  intros n r err Hn. destruct (Hall n r err Hn) as [-> ->].
  cbn [res_Total res_Reset res_Remaining].
  repeat split; try lia.
Qed.

Lemma single_tier_window_witness :
  ∃ l' rs,
    run limiter0 (mkCall "a" [3; 100] <$> 0 :: [ms 1; ms 2; ms 3; ms 100])
    = Ok (l', rs)
    ∧ length rs = S (length [ms 1; ms 2; ms 3; ms 100])
    ∧ ∀ n r err, rs !! n = Some (r, err) →
        err = None
        ∧ res_Total r = 3
        ∧ res_Reset r = 0 + ms 100
        ∧ res_Remaining r = Z.max (3 - Z.of_nat (S n)) (-1)
        ∧ -1 <= res_Remaining r
        ∧ (n = 0%nat → res_Remaining r = 3 - 1)
        ∧ (Z.of_nat (S n) = 3 → res_Remaining r = 0)
        ∧ (3 < Z.of_nat (S n) → res_Remaining r = -1).
Proof.
  apply (single_tier_window limiter0 "a" 3 100 0 [ms 1; ms 2; ms 3; ms 100]).
  - lia.
  - lia.
  - vm_compute. exact I.
  - repeat constructor; vm_compute; discriminate.
Defined.

(** ** [Count] *)

Lemma run_store_dom l cs l' rs :
  run l cs = Ok (l', rs) → Forall (λ x, x.2 = None) rs →
  dom (store l') = list_to_set ((λ c, keyOf l (call_id c)) <$> cs) ∪ dom (store l)
  ∧ options l' = options l.
Proof.
  revert l rs. induction cs as [|c cs IH]; intros l rs Hrun Hrs.
  - injection Hrun as <- <-. split; [|reflexivity].
    rewrite fmap_nil, list_to_set_nil. symmetry. apply (left_id_L ∅ (∪)).
  - cbn [run] in Hrun.
    destruct (Get l (call_id c) (call_policy c) (call_now c)) as [[[l1 r] e]|] eqn:Hget;
      [|discriminate].
    cbn [mbind outcome_bind] in Hrun.
    destruct (run l1 cs) as [[l2 rs']|] eqn:Hrun'; [|discriminate].
    cbn [mbind outcome_bind] in Hrun. injection Hrun as <- <-.
    apply Forall_cons in Hrs as [He Hrs]. cbn in He. subst e.
    apply Get_store in Hget as (_ & Hdom & Hopt).
    destruct (IH l1 rs' Hrun' Hrs) as [Hdom' Hopt'].
    split; [|congruence].
    rewrite Hdom', Hdom, fmap_cons, list_to_set_cons.
    unfold keyOf. rewrite Hopt.
    rewrite (assoc_L (∪)). f_equal. apply (comm_L (∪)).
Qed.

Lemma size_list_to_set_inj (f : string → string) `{!Inj (=) (=) f} (ids : list string) :
  size (list_to_set (f <$> ids) : gset string) = length (remove_dups ids).
Proof.
  assert (Heq : (list_to_set (f <$> ids) : gset string)
                = list_to_set (f <$> remove_dups ids)).
  { apply set_eq. intros x. rewrite !elem_of_list_to_set, !list_elem_of_fmap.
    split; intros (y & -> & Hy); exists y; (split; [reflexivity|]);
      apply elem_of_remove_dups; exact Hy. }
  rewrite Heq, size_list_to_set, length_fmap; [reflexivity|].
  apply NoDup_fmap_2; [assumption | apply NoDup_remove_dups].
Qed.

(** C10: [Count] is the size of the store and of nothing else.  After a
    run of [Get] calls from a new limiter that all return without error,
    [Count] is the number of distinct identifiers of the calls, whatever
    the policies and whatever status items they brought about; and to
    store a status item leaves [Count] as it is. *)
Theorem Count_counts_identifiers opts cs l rs :
  run (New opts) cs = Ok (l, rs) → Forall (λ x, x.2 = None) rs →
  Count l = Z.of_nat (length (remove_dups (call_id <$> cs)))
  ∧ ∀ l0 k s, Count (setStatusMapValue l0 k s) = Count l0.
Proof.
  intros Hrun Hrs. split; [|reflexivity].
  destruct (run_store_dom _ _ _ _ Hrun Hrs) as [Hdom _].
  unfold Count. f_equal.
  rewrite <- size_dom, Hdom.
  replace (dom (store (New opts))) with (∅ : gset string)
    by (unfold New; cbn [store]; rewrite dom_empty_L; reflexivity).
  rewrite (right_id_L ∅ (∪)).
  replace ((λ c, keyOf (New opts) (call_id c)) <$> cs)
    with (String.app (Prefix (options (New opts))) <$> (call_id <$> cs))
    by (rewrite <- list_fmap_compose; reflexivity).
  apply (size_list_to_set_inj (String.app (Prefix (options (New opts))))).
Qed.

Lemma Count_counts_identifiers_witness :
  ∃ l rs,
    run (New (mkOptions EmptyString 0 0 0)) three_calls = Ok (l, rs)
    ∧ Forall (λ x, x.2 = None) rs
    ∧ Count l = Z.of_nat (length (remove_dups (call_id <$> three_calls)))
    ∧ ∀ l0 k s, Count (setStatusMapValue l0 k s) = Count l0.
Proof.
  assert (H : ∃ l rs, run (New (mkOptions EmptyString 0 0 0)) three_calls = Ok (l, rs)
                      ∧ Forall (λ x, x.2 = None) rs).
  { eexists _, _. split; [vm_compute; reflexivity|]. repeat constructor. }
  destruct H as (l & rs & Hrun & Hrs). exists l, rs.
  split; [exact Hrun|]. split; [exact Hrs|].
  exact (Count_counts_identifiers (mkOptions EmptyString 0 0 0) three_calls l rs Hrun Hrs).
Defined.

(** * Further properties of the limiter *)

(** ** The policy of the options *)

(** X1: with no policy, [Get] on a new limiter works with the quota and the
    window of the options, the window cut to whole milliseconds as an
    [int32]; a zero [Max] stands for 1000 and a zero [Duration] for one
    minute.  A [Duration] of whole milliseconds, fewer than [2 ^ 31] of
    them, is the window as it was given. *)
Theorem Get_default_policy opts id now :
  let M := if Max opts =? 0 then 1000 else Max opts in
  let D := if Duration opts =? 0 then Minute else Duration opts in
  let w := wrap32 (Z.quot D Millisecond) in
  (∃ l', Get (New opts) id [] now
         = Ok (l', mkResult M (sub32 M 1) (ms w) (now + ms w), None))
  ∧ (Duration opts = 0 → ms w = Minute)
  ∧ (∀ n, 0 <= n < 2 ^ 31 → D = n * Millisecond → ms w = D).
Proof.
  intros M D w. split; [|split].
  - eexists.
    assert (Heven : Nat.Even (length (@nil Z))) by (exists 0%nat; reflexivity).
    rewrite (Get_even _ _ _ _ Heven).
    change (policyOf (New opts) []) with (defaultPolicy (New opts)).
    unfold getResult. rewrite getLimit_starts.
    + unfold defaultPolicy. rewrite initCacheItem_single. reflexivity.
    + unfold starts_window, New. cbn [store]. rewrite lookup_empty. exact I.
  - intros H0. unfold w, D. rewrite H0. reflexivity.
  - intros n Hn HD. unfold w. rewrite HD.
    rewrite Z.quot_mul by (unfold Millisecond; lia).
    rewrite wrap32_id by (unfold in_int32; lia). reflexivity.
Qed.

(** ** No panic on the way from [New] *)

(** [Get] on a policy of fewer than [2 ^ 31] values returns, whatever the
    policy: an odd length is the error, an even one a result. *)
Lemma Get_returns l id (policy : list Z) now :
  status_ok l → Z.of_nat (length policy) < 2 ^ 31 →
  ∃ l' r e,
    Get l id policy now = Ok (l', r, e)
    ∧ status_ok l' ∧ options l' = options l.
Proof.
  intros Hok Hb. destruct (Nat.Even_or_Odd (length policy)) as [Heven|Hodd].
  - destruct (Get_even_ok l id policy now Hok Heven Hb) as (l' & res & Hget & _ & Hopt & Hok').
    exists l', (resultOf res), None. done.
  - exists l, zeroResult, (Some "fastlimiter: must be paired values").
    split; [apply Get_unpaired, odd_length_mod, Hodd | done].
Qed.

(** X2: from a new limiter no run of [Get] calls panics: no index of
    [initCacheItem] leaves the policy, since the index of a status item
    is at least 1 and is never moved past the number of pairs.  Each call
    has its result, and the status items stay in order. *)
Theorem run_from_New_returns opts cs :
  Forall (λ c, Z.of_nat (length (call_policy c)) < 2 ^ 31) cs →
  ∃ l rs,
    run (New opts) cs = Ok (l, rs)
    ∧ length rs = length cs
    ∧ status_ok l
    ∧ options l = options (New opts).
Proof.
  intros Hcs. generalize (New_status_ok opts). generalize (New opts) as l0.
  induction Hcs as [|c cs Hc Hcs IH]; intros l0 Hok.
  - exists l0, []. done.
  - destruct (Get_returns l0 (call_id c) (call_policy c) (call_now c) Hok Hc)
      as (l1 & r & e & Hget & Hok1 & Hopt1).
    destruct (IH l1 Hok1) as (l & rs & Hrun & Hlen & Hokl & Hopt).
    rewrite (run_cons _ _ _ _ _ _ Hget), Hrun.
    eexists _, _. split; [reflexivity|]. split; [simpl; lia|].
    split; [exact Hokl | congruence].
Qed.

Lemma run_from_New_returns_witness :
  ∃ l rs,
    run (New (mkOptions EmptyString 0 0 0)) three_calls = Ok (l, rs)
    ∧ length rs = length three_calls
    ∧ status_ok l
    ∧ options l = options (New (mkOptions EmptyString 0 0 0)).
Proof.
  apply (run_from_New_returns (mkOptions EmptyString 0 0 0) three_calls).
  repeat constructor; vm_compute; reflexivity.
Defined.

(** ** The tier of a new window *)

(** X3: under a policy of several pairs, a [Get] that starts a window leaves a
    status item whose index is from 1 to the number of pairs; the window
    is of the pair at that index (its quota, less the request made, and
    its duration), and the status item expires two such durations from
    [now]. *)
Theorem Get_selected_tier l id total duration rest now :
  let args := total :: duration :: rest in
  status_ok l → Nat.Even (length args) → 1 < Z.of_nat (length args) / 2 →
  Z.of_nat (length args) < 2 ^ 31 →
  starts_window l (keyOf l id) now →
  ∃ l' s q w,
    Get l id args now
    = Ok (l', mkResult q (sub32 q 1) (ms w) (now + ms w), None)
    ∧ status l' !! statusKeyOf (keyOf l id) = Some s
    ∧ 1 <= status_Index s <= Z.of_nat (length args) / 2
    ∧ args !! Z.to_nat (2 * status_Index s - 2) = Some q
    ∧ args !! Z.to_nat (2 * status_Index s - 1) = Some w
    ∧ status_Expire s = now + ms w * 2
    ∧ store l' !! keyOf l id = Some (mkItem q (sub32 q 1) (ms w) (now + ms w)).
Proof.
  intros args Hok Heven Hmulti Hb Hstart.
  pose proof (policyCount_half args Hb) as Hpc.
  rewrite (Get_even _ _ _ _ Heven), policyOf_nonempty by discriminate.
  unfold getResult. rewrite (getLimit_starts _ _ _ _ Hstart).
  destruct (status l !! statusKeyOf (keyOf l id)) as [s|] eqn:Hs.
  - pose proof (Hok _ _ Hs) as Hidx.
    destruct (Z.lt_ge_cases (status_Index s) (Z.of_nat (length args) / 2)) as [Hlt|Hge].
    + destruct (initCacheItem_escalates l (keyOf l id) total duration rest now s Hb)
        as (q & w & Hq & Hw & Heq); [fold args; lia | exact Hs | fold args; lia |].
      fold args in Heq. rewrite Heq. cbn zeta. cbn [mbind outcome_bind].
      eexists _, _, q, w. split; [reflexivity|]. cbn [status store].
      rewrite !lookup_insert_eq. split; [reflexivity|]. cbn [status_Index status_Expire].
      replace (2 * (status_Index s + 1) - 2) with (2 * status_Index s) by lia.
      replace (2 * (status_Index s + 1) - 1) with (2 * status_Index s + 1) by lia.
      repeat split; try assumption; lia.
    + unfold args. rewrite (initCacheItem_wraps l (keyOf l id) total duration rest now s)
        by (first [exact Hs | fold args; lia]).
      cbn zeta. cbn [mbind outcome_bind].
      eexists _, _, total, duration. split; [reflexivity|]. cbn [status store].
      rewrite !lookup_insert_eq. split; [reflexivity|]. cbn [status_Index status_Expire].
      fold args. repeat split; try reflexivity; lia.
  - unfold args. rewrite (initCacheItem_no_status _ _ _ _ _ _ Hs). fold args.
    destruct (Z.ltb_spec 1 (wrap32 (Z.of_nat (length args) / 2))) as [_|Hle]; [|lia].
    cbn zeta. cbn [mbind outcome_bind].
    eexists _, _, total, duration. split; [reflexivity|].
    unfold setMapValue, setStatusMapValue. cbn [status store].
    rewrite !lookup_insert_eq. split; [reflexivity|]. cbn [status_Index status_Expire].
    repeat split; try reflexivity; lia.
Qed.

Lemma Get_selected_tier_witness :
  ∃ l' s q w,
    Get after_first_window "a" [3; 100; 2; 200] (ms 101)
    = Ok (l', mkResult q (sub32 q 1) (ms w) (ms 101 + ms w), None)
    ∧ status l' !! statusKeyOf (keyOf after_first_window "a") = Some s
    ∧ 1 <= status_Index s <= Z.of_nat (length [3; 100; 2; 200]) / 2
    ∧ [3; 100; 2; 200] !! Z.to_nat (2 * status_Index s - 2) = Some q
    ∧ [3; 100; 2; 200] !! Z.to_nat (2 * status_Index s - 1) = Some w
    ∧ status_Expire s = ms 101 + ms w * 2
    ∧ store l' !! keyOf after_first_window "a"
      = Some (mkItem q (sub32 q 1) (ms w) (ms 101 + ms w)).
Proof.
  apply (Get_selected_tier after_first_window "a" 3 100 [2; 200] (ms 101)).
  - intros k s Hs. unfold after_first_window in Hs. cbn [status] in Hs.
    apply lookup_singleton_Some in Hs as [_ <-]. cbn. lia.
  - exists 2%nat. reflexivity.
  - reflexivity.
  - simpl. lia.
  - vm_compute. reflexivity.
Defined.

(** X4: below the last pair the tier goes one up: with the status item at
    index [i], less than the number of pairs, the window a [Get] starts is
    of the pair at [i + 1], and the status item is stored with index
    [i + 1].  The [Expire] of the status item plays no part. *)
Theorem Get_escalates l id total duration rest now s :
  let args := total :: duration :: rest in
  Nat.Even (length args) → Z.of_nat (length args) < 2 ^ 31 →
  starts_window l (keyOf l id) now →
  status l !! statusKeyOf (keyOf l id) = Some s →
  1 <= status_Index s < Z.of_nat (length args) / 2 →
  ∃ l' q w,
    args !! Z.to_nat (2 * status_Index s) = Some q
    ∧ args !! Z.to_nat (2 * status_Index s + 1) = Some w
    ∧ Get l id args now
      = Ok (l', mkResult q (sub32 q 1) (ms w) (now + ms w), None)
    ∧ status l' !! statusKeyOf (keyOf l id)
      = Some (mkStatus (status_Index s + 1) (now + ms w * 2)).
Proof.
  intros args Heven Hb Hstart Hs Hidx.
  pose proof (policyCount_half args Hb) as Hpc.
  rewrite (Get_even _ _ _ _ Heven), policyOf_nonempty by discriminate.
  unfold getResult. rewrite (getLimit_starts _ _ _ _ Hstart).
  destruct (initCacheItem_escalates l (keyOf l id) total duration rest now s Hb)
    as (q & w & Hq & Hw & Heq); [fold args; lia | exact Hs | fold args; lia |].
  fold args in Heq. rewrite Heq. cbn zeta. cbn [mbind outcome_bind].
  eexists _, q, w. split; [exact Hq|]. split; [exact Hw|].
  split; [reflexivity|]. cbn [status]. apply lookup_insert_eq.
Qed.

Lemma Get_escalates_witness :
  ∃ l' q w,
    [3; 100; 2; 200] !! Z.to_nat (2 * 1) = Some q
    ∧ [3; 100; 2; 200] !! Z.to_nat (2 * 1 + 1) = Some w
    ∧ Get after_first_window "a" [3; 100; 2; 200] (ms 101)
      = Ok (l', mkResult q (sub32 q 1) (ms w) (ms 101 + ms w), None)
    ∧ status l' !! statusKeyOf (keyOf after_first_window "a")
      = Some (mkStatus (1 + 1) (ms 101 + ms w * 2)).
Proof.
  apply (Get_escalates after_first_window "a" 3 100 [2; 200] (ms 101)
           (mkStatus 1 (ms 200))).
  - exists 2%nat. reflexivity.
  - simpl. lia.
  - vm_compute. reflexivity.
  - reflexivity.
  - vm_compute. split; [discriminate | reflexivity].
Defined.

(** ** One identifier at a time *)

Lemma length_append (s1 s2 : string) :
  String.length (s1 +:+ s2) = (String.length s1 + String.length s2)%nat.
Proof. induction s1 as [|c s1 IH]; [reflexivity | simpl; rewrite IH; reflexivity]. Qed.

Lemma append_inj_l (s1 s2 t : string) : s1 +:+ t = s2 +:+ t → s1 = s2.
Proof.
  revert s2. induction s1 as [|c s1 IH]; intros [|c' s2] Heq.
  - reflexivity.
  - apply (f_equal String.length) in Heq.
    rewrite !length_append in Heq. simpl in Heq. lia.
  - apply (f_equal String.length) in Heq.
    rewrite !length_append in Heq. simpl in Heq. lia.
  - simpl in Heq. injection Heq as -> Heq. f_equal. apply IH, Heq.
Qed.

Lemma statusKeyOf_inj k1 k2 : statusKeyOf k1 = statusKeyOf k2 → k1 = k2.
Proof.
  unfold statusKeyOf. intros Heq. simpl in Heq. injection Heq as Heq.
  apply (append_inj_l k1 k2 "}:S"). exact Heq.
Qed.

Lemma keyOf_inj l id1 id2 : keyOf l id1 = keyOf l id2 → id1 = id2.
Proof. unfold keyOf. apply (inj (String.app _)). Qed.

Lemma initCacheItem_frame l key args now l' res :
  initCacheItem l key args now = Ok (l', res) →
  ∀ k, k ≠ statusKeyOf key → status l' !! k = status l !! k.
Proof.
  unfold initCacheItem, stepStatus, getStatusMapValue.
  destruct (index args 0) as [total|]; [|discriminate].
  destruct (index args 1) as [duration|]; [|discriminate].
  cbn [mbind outcome_bind].
  destruct (1 <? _); [destruct (status l !! statusKeyOf key) as [s|]|].
  - destruct (index args (sub32 (mul32 _ 2) 2)) as [t'|]; [|discriminate].
    cbn [mbind outcome_bind].
    destruct (index args (sub32 (mul32 _ 2) 1)) as [d'|]; [|discriminate].
    cbn [mbind outcome_bind]. intros Heq k Hk. injection Heq as <- _.
    unfold setMapValue, setStatusMapValue. cbn [status].
    rewrite !lookup_insert_ne by congruence. reflexivity.
  - cbn [mbind outcome_bind]. intros Heq k Hk. injection Heq as <- _.
    unfold setMapValue, setStatusMapValue. cbn [status].
    rewrite lookup_insert_ne by congruence. reflexivity.
  - cbn [mbind outcome_bind]. intros Heq k Hk. injection Heq as <- _. reflexivity.
Qed.

Lemma getLimit_frame l key args now l' res :
  getLimit l key args now = Ok (l', res) →
  (∀ k, k ≠ key → store l' !! k = store l !! k)
  ∧ (∀ k, k ≠ statusKeyOf key → status l' !! k = status l !! k).
Proof.
  unfold getLimit, getMapValue.
  assert (Hinit : initCacheItem l key args now = Ok (l', res) →
            (∀ k, k ≠ key → store l' !! k = store l !! k)
            ∧ (∀ k, k ≠ statusKeyOf key → status l' !! k = status l !! k)).
  { intros Heq. split.
    - apply initCacheItem_store in Heq as [-> _]. intros k Hk.
      apply lookup_insert_ne. congruence.
    - eapply initCacheItem_frame, Heq. }
  destruct (store l !! key) as [old|]; [|exact Hinit].
  destruct (item_Expire old <? now); [exact Hinit|].
  destruct (item_Remaining old =? -1); intros Heq; injection Heq as <- _.
  - done.
  - split; [|done]. intros k Hk. cbn [store setMapValue].
    apply lookup_insert_ne. congruence.
Qed.

(** X5: a [Get] for one identifier leaves every other identifier alone: the
    items and the status items of other keys, and so of other
    identifiers, are those of before, and so are the options. *)
Theorem Get_other_identifiers l id policy now l' r e :
  Get l id policy now = Ok (l', r, e) →
  options l' = options l
  ∧ (∀ k, k ≠ keyOf l id → store l' !! k = store l !! k)
  ∧ (∀ k, k ≠ statusKeyOf (keyOf l id) → status l' !! k = status l !! k)
  ∧ (∀ id', id' ≠ id →
       store l' !! keyOf l id' = store l !! keyOf l id'
       ∧ status l' !! statusKeyOf (keyOf l id') = status l !! statusKeyOf (keyOf l id')).
Proof.
  intros Hget.
  assert (Hkeys : options l' = options l
            ∧ (∀ k, k ≠ keyOf l id → store l' !! k = store l !! k)
            ∧ (∀ k, k ≠ statusKeyOf (keyOf l id) → status l' !! k = status l !! k)).
  { revert Hget. unfold Get. fold (keyOf l id).
    destruct (Z.of_nat (length policy) mod 2 =? 1).
    - intros Heq. injection Heq as <- _ _. done.
    - unfold getResult.
      destruct (getLimit l (keyOf l id) _ now) as [[l1 res]|] eqn:Hlim; [|discriminate].
      cbn [mbind outcome_bind]. intros Heq. injection Heq as <- _ _.
      split; [apply getLimit_store in Hlim as (_ & _ & Hopt); exact Hopt|].
      apply getLimit_frame in Hlim. exact Hlim. }
  destruct Hkeys as (Hopt & Hstore & Hstatus).
  split; [exact Hopt|]. split; [exact Hstore|]. split; [exact Hstatus|].
  intros id' Hid. split.
  - apply Hstore. intros Heq. apply keyOf_inj in Heq. congruence.
  - apply Hstatus. intros Heq. apply statusKeyOf_inj, keyOf_inj in Heq. congruence.
Qed.

Lemma Get_other_identifiers_witness :
  options after_first_window = options limiter0
  ∧ (∀ k, k ≠ keyOf limiter0 "a" → store after_first_window !! k = store limiter0 !! k)
  ∧ (∀ k, k ≠ statusKeyOf (keyOf limiter0 "a") →
          status after_first_window !! k = status limiter0 !! k)
  ∧ (∀ id', id' ≠ "a" →
       store after_first_window !! keyOf limiter0 id' = store limiter0 !! keyOf limiter0 id'
       ∧ status after_first_window !! statusKeyOf (keyOf limiter0 id')
         = status limiter0 !! statusKeyOf (keyOf limiter0 id')).
Proof.
  apply (Get_other_identifiers limiter0 "a" two_tiers 0 after_first_window
           (mkResult 3 2 (ms 100) (ms 100)) None).
  vm_compute. reflexivity.
Defined.

(** ** Within a window *)

(** X6: while the item of the identifier is in its window ([now] not past
    its [Expire]), [Get] does not look at the values of the policy: any
    two policies of even length give the same outcome, and the status map
    is left as it is.  A tier is chosen when a window starts and at no
    other time. *)
Theorem Get_live_ignores_policy l id (p1 p2 : list Z) now old :
  store l !! keyOf l id = Some old → now <= item_Expire old →
  Nat.Even (length p1) → Nat.Even (length p2) →
  Get l id p1 now = Get l id p2 now
  ∧ ∃ l' r, Get l id p1 now = Ok (l', r, None)
            ∧ status l' = status l
            ∧ res_Total r = item_Total old
            ∧ res_Duration r = item_Duration old
            ∧ res_Reset r = item_Expire old.
Proof.
  intros Hold Hle H1 H2.
  rewrite !Get_even by assumption. unfold getResult.
  rewrite !(getLimit_live _ _ _ _ old Hold Hle).
  split; [reflexivity|].
  destruct (item_Remaining old =? -1); cbn zeta; cbn [mbind outcome_bind];
    eexists _, _; (split; [reflexivity|]); done.
Qed.

Lemma Get_live_ignores_policy_witness :
  Get after_first_window "a" two_tiers (ms 50) = Get after_first_window "a" [7; 9] (ms 50)
  ∧ ∃ l' r, Get after_first_window "a" two_tiers (ms 50) = Ok (l', r, None)
            ∧ status l' = status after_first_window
            ∧ res_Total r = item_Total (mkItem 3 2 (ms 100) (ms 100))
            ∧ res_Duration r = item_Duration (mkItem 3 2 (ms 100) (ms 100))
            ∧ res_Reset r = item_Expire (mkItem 3 2 (ms 100) (ms 100)).
Proof.
  apply (Get_live_ignores_policy after_first_window "a" two_tiers [7; 9] (ms 50)
           (mkItem 3 2 (ms 100) (ms 100))).
  - reflexivity.
  - vm_compute. discriminate.
  - exists 2%nat. reflexivity.
  - exists 1%nat. reflexivity.
Defined.

(** ** A policy of one pair *)

(** X7: under a policy of one pair [Get] always returns, and leaves the status
    map as it is; when it starts a window, the result is the quota, the
    quota less one, the window and its end, whatever the identifier had
    before. *)
Theorem Get_single_tier l id q w now :
  (∃ l' r, Get l id [q; w] now = Ok (l', r, None) ∧ status l' = status l)
  ∧ (starts_window l (keyOf l id) now →
     let res := mkItem q (sub32 q 1) (ms w) (now + ms w) in
     Get l id [q; w] now = Ok (setMapValue l (keyOf l id) res, resultOf res, None)).
Proof.
  assert (Heven : Nat.Even (length [q; w])) by (exists 1%nat; reflexivity).
  assert (Hstart : starts_window l (keyOf l id) now →
            let res := mkItem q (sub32 q 1) (ms w) (now + ms w) in
            Get l id [q; w] now = Ok (setMapValue l (keyOf l id) res, resultOf res, None)).
  { intros Hs. rewrite (Get_even _ _ _ _ Heven), policyOf_nonempty by discriminate.
    unfold getResult. rewrite (getLimit_starts _ _ _ _ Hs), initCacheItem_single.
    reflexivity. }
  split; [|exact Hstart].
  destruct (store l !! keyOf l id) as [old|] eqn:Hold.
  - destruct (Z.lt_ge_cases (item_Expire old) now) as [Hlt|Hge].
    + rewrite Hstart by (unfold starts_window; rewrite Hold; exact Hlt).
      eexists _, _. split; reflexivity.
    + rewrite (Get_even _ _ _ _ Heven). unfold getResult.
      rewrite (getLimit_live _ _ _ _ old Hold) by lia.
      destruct (item_Remaining old =? -1); cbn zeta; cbn [mbind outcome_bind];
        eexists _, _; split; reflexivity.
  - rewrite Hstart by (unfold starts_window; rewrite Hold; exact I).
    eexists _, _. split; reflexivity.
Qed.

(** ** [Count], [Get] and [Remove] *)

Lemma size_insert_lookup (m : gmap string limiterCacheItem) k v :
  Z.of_nat (size (<[k := v]> m))
  = match m !! k with
    | Some _ => Z.of_nat (size m)
    | None => Z.of_nat (size m) + 1
    end.
Proof.
  destruct (m !! k) as [old|] eqn:Hk.
  - rewrite map_size_insert_Some by eauto. reflexivity.
  - rewrite map_size_insert_None by exact Hk. lia.
Qed.

(** X8: [Get] never takes an item out of the store: it adds the item of the
    identifier when there is none and the policy is paired, and leaves the
    number of items as it is otherwise. *)
Theorem Get_Count l id policy now l' r e :
  Get l id policy now = Ok (l', r, e) →
  Count l'
  = match e, store l !! keyOf l id with
    | None, None => Count l + 1
    | _, _ => Count l
    end.
Proof.
  unfold Get. fold (keyOf l id).
  destruct (Z.of_nat (length policy) mod 2 =? 1).
  { intros Heq. injection Heq as <- _ <-. reflexivity. }
  unfold getResult.
  destruct (getLimit l (keyOf l id) _ now) as [[l1 res]|] eqn:Hlim; [|discriminate].
  cbn [mbind outcome_bind]. intros Heq. injection Heq as <- _ <-.
  revert Hlim. unfold getLimit, getMapValue, Count.
  assert (Hinit : ∀ args, initCacheItem l (keyOf l id) args now = Ok (l1, res) →
            Z.of_nat (size (store l1))
            = match store l !! keyOf l id with
              | Some _ => Z.of_nat (size (store l))
              | None => Z.of_nat (size (store l)) + 1
              end).
  { intros args Heq. apply initCacheItem_store in Heq as [-> _].
    apply size_insert_lookup. }
  destruct (store l !! keyOf l id) as [old|] eqn:Hold.
  - destruct (item_Expire old <? now); [apply Hinit|].
    destruct (item_Remaining old =? -1); intros Heq; injection Heq as <- _.
    + reflexivity.
    + cbn [store setMapValue]. rewrite size_insert_lookup, Hold. reflexivity.
  - apply Hinit.
Qed.

Lemma Get_Count_witness :
  Count after_first_window
  = match @None string, store limiter0 !! keyOf limiter0 "a" with
    | None, None => Count limiter0 + 1
    | _, _ => Count limiter0
    end.
Proof.
  apply (Get_Count limiter0 "a" two_tiers 0 after_first_window
           (mkResult 3 2 (ms 100) (ms 100)) None).
  vm_compute. reflexivity.
Defined.

(** X9: [Remove] of an identifier that has an item takes [Count] down by one;
    of an identifier that has none it leaves [Count] as it is.  It is not
    an error to remove what is not there: with no item and no status item
    for the identifier the limiter comes back as it was, so [Remove] twice
    is [Remove] once. *)
Theorem Remove_Count l id :
  Count (Remove l id)
  = match store l !! keyOf l id with
    | Some _ => Count l - 1
    | None => Count l
    end
  ∧ (never_seen l id → Remove l id = l)
  ∧ Remove (Remove l id) id = Remove l id.
Proof.
  assert (Habsent : ∀ l0, never_seen l0 id → Remove l0 id = l0).
  { intros l0 [Hs Ht]. unfold Remove. unfold keyOf in Hs, Ht.
    rewrite (delete_id _ _ Hs), (delete_id _ _ Ht). destruct l0; reflexivity. }
  split; [|split].
  - unfold Count, Remove, keyOf. cbn [store].
    destruct (store l !! (Prefix (options l) +:+ id)) as [old|] eqn:Hk.
    + rewrite map_size_delete, Hk.
      assert (size (store l) ≠ 0%nat).
      { intros H0. apply map_size_empty_inv in H0. rewrite H0 in Hk.
        rewrite lookup_empty in Hk. discriminate. }
      lia.
    + rewrite (delete_id _ _ Hk). reflexivity.
  - apply Habsent.
  - apply Habsent, Remove_never_seen.
Qed.

(** ** Positive quotas *)

Lemma index_elem (args : list Z) i v : index args i = Ok v → v ∈ args.
Proof.
  unfold index. destruct (i <? 0); [discriminate|].
  destruct (args !! Z.to_nat i) as [x|] eqn:Hx; [|discriminate].
  intros Heq. injection Heq as <-. eapply list_elem_of_lookup_2, Hx.
Qed.

Lemma initCacheItem_total l key args now l' res :
  initCacheItem l key args now = Ok (l', res) →
  item_Total res ∈ args ∧ item_Remaining res = sub32 (item_Total res) 1.
Proof.
  unfold initCacheItem, stepStatus, getStatusMapValue.
  destruct (index args 0) as [total|] eqn:Ht; [|discriminate].
  destruct (index args 1) as [duration|]; [|discriminate].
  cbn [mbind outcome_bind]. apply index_elem in Ht.
  destruct (1 <? _); [destruct (status l !! statusKeyOf key) as [s|]|].
  - destruct (index args (sub32 (mul32 _ 2) 2)) as [t'|] eqn:Ht'; [|discriminate].
    cbn [mbind outcome_bind].
    destruct (index args (sub32 (mul32 _ 2) 1)) as [d'|]; [|discriminate].
    cbn [mbind outcome_bind]. intros Heq. injection Heq as _ <-.
    apply index_elem in Ht'. done.
  - cbn [mbind outcome_bind]. intros Heq. injection Heq as _ <-. done.
  - cbn [mbind outcome_bind]. intros Heq. injection Heq as _ <-. done.
Qed.

Lemma items_ok_insert l l' k it :
  items_ok l → store l' = <[k := it]> (store l) →
  0 < item_Total it < 2 ^ 31 → -1 <= item_Remaining it < item_Total it →
  items_ok l'.
Proof.
  intros Hok Hstore Ht Hr k' it'. rewrite Hstore, lookup_insert.
  case_decide; [intros Heq; injection Heq as <-; done | apply Hok].
Qed.

(** With positive quotas the remaining stays from -1 up to the quota less
    one: a [Get] under a policy of positive values keeps every item of the
    store in that range, and returns a result in it. *)
Lemma Get_items_ok l id (policy : list Z) now l' r :
  items_ok l → positive_policy (policyOf l policy) →
  Get l id policy now = Ok (l', r, None) →
  items_ok l' ∧ 0 < res_Total r < 2 ^ 31 ∧ -1 <= res_Remaining r < res_Total r.
Proof.
  intros Hok Hpos. unfold Get. fold (keyOf l id).
  destruct (Z.of_nat (length policy) mod 2 =? 1); [discriminate|].
  fold (policyOf l policy). unfold getResult.
  destruct (getLimit l (keyOf l id) _ now) as [[l1 res]|] eqn:Hlim; [|discriminate].
  cbn [mbind outcome_bind]. intros Heq. injection Heq as <- <-.
  cbn [res_Total res_Remaining].
  revert Hlim. unfold getLimit, getMapValue.
  assert (Hinit : initCacheItem l (keyOf l id) (policyOf l policy) now = Ok (l1, res) →
            items_ok l1 ∧ 0 < item_Total res < 2 ^ 31
            ∧ -1 <= item_Remaining res < item_Total res).
  { intros Heq. pose proof (initCacheItem_total _ _ _ _ _ _ Heq) as [Hin Hrem].
    apply initCacheItem_store in Heq as [Hstore _].
    unfold positive_policy in Hpos. rewrite Forall_forall in Hpos.
    pose proof (Hpos _ Hin) as Ht.
    assert (Hr : -1 <= item_Remaining res < item_Total res).
    { rewrite Hrem. unfold sub32. rewrite wrap32_id by (unfold in_int32; lia). lia. }
    split; [|done]. eapply items_ok_insert; eauto. }
  destruct (store l !! keyOf l id) as [old|] eqn:Hold; [|exact Hinit].
  destruct (item_Expire old <? now); [exact Hinit|].
  destruct (Hok _ _ Hold) as [Ht Hr].
  destruct (Z.eqb_spec (item_Remaining old) (-1)) as [Hm|Hm];
    intros Heq; injection Heq as <- <-.
  - done.
  - cbn [item_Total item_Remaining].
    assert (Hdec : add32 (item_Remaining old) (-1) = item_Remaining old - 1).
    { unfold add32. rewrite wrap32_id by (unfold in_int32; lia). lia. }
    rewrite Hdec. split; [|lia].
    eapply items_ok_insert; [exact Hok | reflexivity | exact Ht |].
    cbn [item_Remaining item_Total]. lia.
Qed.

Lemma run_results_in_range opts cs l rs :
  Forall (λ c, call_policy c ≠ [] ∧ positive_policy (call_policy c)) cs →
  run (New opts) cs = Ok (l, rs) →
  ∀ n r, rs !! n = Some (r, None) →
    0 < res_Total r < 2 ^ 31 ∧ -1 <= res_Remaining r < res_Total r.
Proof.
  intros Hcs.
  assert (Hok0 : items_ok (New opts)).
  { intros k it. unfold New. cbn [store]. rewrite lookup_empty. discriminate. }
  revert Hok0. generalize (New opts) as l0. revert rs.
  induction Hcs as [|c cs [Hne Hpos] Hcs IH]; intros rs l0 Hok0 Hrun n r Hn.
  - injection Hrun as _ <-. rewrite lookup_nil in Hn. discriminate.
  - cbn [run] in Hrun.
    destruct (Get l0 (call_id c) (call_policy c) (call_now c)) as [[[l1 r1] e1]|] eqn:Hget;
      [|discriminate].
    cbn [mbind outcome_bind] in Hrun.
    destruct (run l1 cs) as [[l2 rs']|] eqn:Hrun'; [|discriminate].
    cbn [mbind outcome_bind] in Hrun. injection Hrun as -> <-.
    assert (Hstep : items_ok l1 ∧ (e1 = None →
              0 < res_Total r1 < 2 ^ 31 ∧ -1 <= res_Remaining r1 < res_Total r1)).
    { destruct e1 as [err|].
      - split; [|discriminate]. revert Hget. unfold Get.
        destruct (Z.of_nat (length (call_policy c)) mod 2 =? 1).
        + intros Heq. injection Heq as <- _ _. exact Hok0.
        + intros Heq. apply getResult_no_error in Heq. discriminate.
      - rewrite <- (policyOf_nonempty l0 _ Hne) in Hpos.
        destruct (Get_items_ok _ _ _ _ _ _ Hok0 Hpos Hget) as (H1 & H2 & H3). done. }
    destruct Hstep as [Hok1 Hr1].
    destruct n as [|n].
    + injection Hn as <- ->. apply Hr1. reflexivity.
    + exact (IH rs' l1 Hok1 Hrun' n r Hn).
Qed.

Lemma run_returns l0 cs :
  status_ok l0 →
  Forall (λ c, Z.of_nat (length (call_policy c)) < 2 ^ 31) cs →
  ∃ l rs, run l0 cs = Ok (l, rs) ∧ length rs = length cs.
Proof.
  intros Hok Hcs. revert l0 Hok.
  induction Hcs as [|c cs Hc Hcs IH]; intros l0 Hok.
  - exists l0, []. done.
  - destruct (Get_returns l0 (call_id c) (call_policy c) (call_now c) Hok Hc)
      as (l1 & r & e & Hget & Hok1 & _).
    destruct (IH l1 Hok1) as (l & rs & Hrun & Hlen).
    rewrite (run_cons _ _ _ _ _ _ Hget), Hrun.
    eexists _, _. split; [reflexivity | simpl; lia].
Qed.

(** X10: from a new limiter, under policies of positive values (none empty,
    each of fewer than [2 ^ 31] values), a run of requests returns a
    result for each, and every result that comes without error has a
    positive total and a remaining from -1 up to the total less one: no
    run of requests, of whatever identifiers, tiers and instants, takes a
    remaining below -1. *)
Theorem run_remaining_bounds opts cs :
  Forall (λ c, call_policy c ≠ [] ∧ positive_policy (call_policy c)
               ∧ Z.of_nat (length (call_policy c)) < 2 ^ 31) cs →
  ∃ l rs,
    run (New opts) cs = Ok (l, rs)
    ∧ length rs = length cs
    ∧ ∀ n r, rs !! n = Some (r, None) →
        0 < res_Total r < 2 ^ 31 ∧ -1 <= res_Remaining r < res_Total r.
Proof.
  intros Hcs.
  destruct (run_returns (New opts) cs (New_status_ok opts)) as (l & rs & Hrun & Hlen).
  { eapply Forall_impl; [exact Hcs|]. intros c (_ & _ & Hb). exact Hb. }
  exists l, rs. split; [exact Hrun|]. split; [exact Hlen|].
  apply (run_results_in_range opts cs l rs); [|exact Hrun].
  eapply Forall_impl; [exact Hcs|]. intros c (Hne & Hpos & _). done.
Qed.

Lemma run_remaining_bounds_witness :
  ∃ l rs,
    run (New (mkOptions EmptyString 0 0 0)) three_calls = Ok (l, rs)
    ∧ length rs = length three_calls
    ∧ ∀ n r, rs !! n = Some (r, None) →
        0 < res_Total r < 2 ^ 31 ∧ -1 <= res_Remaining r < res_Total r.
Proof.
  apply (run_remaining_bounds (mkOptions EmptyString 0 0 0) three_calls).
  repeat constructor; first [discriminate | vm_compute; reflexivity].
Defined.

(** ** What [Clean] can do *)

Lemma Remove_subseteq l id :
  store (Remove l id) ⊆ store l ∧ status (Remove l id) ⊆ status l
  ∧ options (Remove l id) = options l.
Proof.
  unfold Remove. cbn [store status options].
  split; [apply delete_subseteq|]. split; [apply delete_subseteq | reflexivity].
Qed.

(** X11: [Clean] only ever deletes: in whatever order it ranges, the store and
    the status map it leaves are parts of those it found, the options are
    the same, and [Count] has not grown. *)
Theorem Clean_only_deletes l order now :
  store (Clean l order now) ⊆ store l
  ∧ status (Clean l order now) ⊆ status l
  ∧ options (Clean l order now) = options l
  ∧ Count (Clean l order now) <= Count l.
Proof.
  assert (Hsub : store (Clean l order now) ⊆ store l
                 ∧ status (Clean l order now) ⊆ status l
                 ∧ options (Clean l order now) = options l).
  { unfold Clean. revert l. induction order as [|key rest IH]; intros l; [done|].
    cbn [Clean_range].
    destruct (store l !! key) as [value|]; [|apply IH].
    destruct (item_Expire value <? now); [|apply IH].
    destruct (IH (Remove l key)) as (H1 & H2 & H3).
    destruct (Remove_subseteq l key) as (R1 & R2 & R3).
    split; [etrans; eassumption|]. split; [etrans; eassumption | congruence]. }
  destruct Hsub as (H1 & H2 & H3). repeat split; try assumption.
  unfold Count. apply map_subseteq_size in H1. lia.
Qed.

Lemma Get_frame l id policy now l' r e :
  Get l id policy now = Ok (l', r, e) →
  options l' = options l
  ∧ (∀ k, k ≠ keyOf l id → store l' !! k = store l !! k)
  ∧ (∀ k, k ≠ statusKeyOf (keyOf l id) → status l' !! k = status l !! k).
Proof.
  unfold Get. fold (keyOf l id).
  destruct (Z.of_nat (length policy) mod 2 =? 1).
  - intros Heq. injection Heq as <- _ _. done.
  - unfold getResult.
    destruct (getLimit l (keyOf l id) _ now) as [[l1 res]|] eqn:Hlim; [|discriminate].
    cbn [mbind outcome_bind]. intros Heq. injection Heq as <- _ _.
    split; [apply getLimit_store in Hlim as (_ & _ & Hopt); exact Hopt|].
    apply getLimit_frame in Hlim. exact Hlim.
Qed.

(** The keys a run of [Get] calls can bring into the two maps are those
    of the identifiers of the calls. *)
Lemma run_keys l0 cs l rs :
  run l0 cs = Ok (l, rs) →
  options l = options l0
  ∧ (∀ k, is_Some (store l !! k) →
          is_Some (store l0 !! k) ∨ ∃ c, c ∈ cs ∧ k = keyOf l0 (call_id c))
  ∧ (∀ k, is_Some (status l !! k) →
          is_Some (status l0 !! k)
          ∨ ∃ c, c ∈ cs ∧ k = statusKeyOf (keyOf l0 (call_id c))).
Proof.
  revert l0 rs. induction cs as [|c cs IH]; intros l0 rs Hrun.
  - injection Hrun as <- _. split; [reflexivity|]. split; intros k Hk; left; exact Hk.
  - cbn [run] in Hrun.
    destruct (Get l0 (call_id c) (call_policy c) (call_now c)) as [[[l1 r1] e1]|] eqn:Hget;
      [|discriminate].
    cbn [mbind outcome_bind] in Hrun.
    destruct (run l1 cs) as [[l2 rs']|] eqn:Hrun'; [|discriminate].
    cbn [mbind outcome_bind] in Hrun. injection Hrun as -> _.
    destruct (IH l1 rs' Hrun') as (Hopt & Hstore & Hstatus).
    destruct (Get_frame _ _ _ _ _ _ _ Hget) as (Hopt1 & Hstore1 & Hstatus1).
    assert (Hkey : ∀ id, keyOf l1 id = keyOf l0 id)
      by (intros id; unfold keyOf; rewrite Hopt1; reflexivity).
    split; [congruence|]. split; intros k Hk.
    + destruct (Hstore k Hk) as [Hin|(c' & Hc' & ->)].
      * destruct (decide (k = keyOf l0 (call_id c))) as [->|Hne].
        -- right. exists c. split; [apply list_elem_of_here | reflexivity].
        -- left. rewrite <- (Hstore1 k Hne). exact Hin.
      * right. exists c'. split; [apply list_elem_of_further, Hc' | apply Hkey].
    + destruct (Hstatus k Hk) as [Hin|(c' & Hc' & ->)].
      * destruct (decide (k = statusKeyOf (keyOf l0 (call_id c)))) as [->|Hne].
        -- right. exists c. split; [apply list_elem_of_here | reflexivity].
        -- left. rewrite <- (Hstatus1 k Hne). exact Hin.
      * right. exists c'. split; [apply list_elem_of_further, Hc'|].
        rewrite Hkey. reflexivity.
Qed.

(** X12: after any run of [Get] calls from a new limiter in which no identifier
    begins with the prefix of the options, [Clean] deletes nothing, at
    whatever instant and in whatever order it ranges: the key it hands to
    [Remove] gets the prefix a second time, and no key of that form is in
    the store or in the status map. *)
Theorem Clean_leaves_reachable opts cs l rs order now :
  run (New opts) cs = Ok (l, rs) →
  (∀ c x, c ∈ cs → call_id c ≠ Prefix (options (New opts)) +:+ x) →
  Clean l order now = l.
Proof.
  intros Hrun Hids.
  destruct (run_keys _ _ _ _ Hrun) as (Hopt & Hstore & Hstatus).
  assert (Hempty : ∀ k, ¬ is_Some (store (New opts) !! k)
                        ∧ ¬ is_Some (status (New opts) !! k)).
  { intros k. unfold New. cbn [store status]. rewrite !lookup_empty.
    split; intros [x Hx]; discriminate. }
  apply Clean_changes_nothing. intros k Hk. rewrite Hopt.
  destruct (Hstore k Hk) as [Hin|(c & Hc & ->)]; [destruct (Hempty k) as [H _]; done|].
  clear Hk. set (k2 := Prefix (options (New opts)) +:+ keyOf (New opts) (call_id c)).
  split.
  - destruct (store l !! k2) as [v|] eqn:Hv; [|reflexivity]. exfalso.
    destruct (Hstore _ (mk_is_Some _ _ Hv)) as [Hin|(c' & Hc' & Heq)].
    + destruct (Hempty k2) as [H _]. done.
    + apply keyOf_inj in Heq. eapply Hids; [exact Hc' | symmetry; exact Heq].
  - destruct (status l !! statusKeyOf k2) as [v|] eqn:Hv; [|reflexivity]. exfalso.
    destruct (Hstatus _ (mk_is_Some _ _ Hv)) as [Hin|(c' & Hc' & Heq)].
    + destruct (Hempty (statusKeyOf k2)) as [_ H]. done.
    + apply statusKeyOf_inj, keyOf_inj in Heq.
      eapply Hids; [exact Hc' | symmetry; exact Heq].
Qed.

Lemma Clean_leaves_reachable_witness :
  ∃ l rs,
    run (New (mkOptions EmptyString 0 0 0)) three_calls = Ok (l, rs)
    ∧ Clean l ["limit:b"; "limit:a"] (ms 5000) = l.
Proof.
  assert (H : ∃ l rs, run (New (mkOptions EmptyString 0 0 0)) three_calls = Ok (l, rs)).
  { eexists _, _. vm_compute. reflexivity. }
  destruct H as (l & rs & Hrun). exists l, rs. split; [exact Hrun|].
  apply (Clean_leaves_reachable (mkOptions EmptyString 0 0 0) three_calls l rs
           ["limit:b"; "limit:a"] (ms 5000) Hrun).
  intros c x Hc. unfold three_calls in Hc.
  repeat (apply elem_of_cons in Hc as [->|Hc]); try (cbn; discriminate).
  apply elem_of_nil in Hc. destruct Hc.
Defined.

(** ** The example server *)






(** ** The second fastlimiter.go *)

Lemma V2_handleSinglePolicy_eq l key total duration rest now :
  V2.handleSinglePolicy l key (total :: duration :: rest) now
  = let res := mkItem total (sub32 total 1) (ms duration) (now + ms duration) in
    Ok (setMapValue l key res, res).
Proof. reflexivity. Qed.

(** When a window starts, the two texts of [initCacheItem] part only on a
    status item that has expired or is at the last pair or beyond: with
    one pair, with no status item, or with a live status item below the
    last pair, they do the same. *)
Lemma V2_getItemFromCache_agrees l key (args : list Z) now :
  args ≠ [] → Nat.Even (length args) →
  (2 <= wrap32 (Z.of_nat (length args) / 2) →
   ∀ s, status l !! statusKeyOf key = Some s →
        now <= status_Expire s
        ∧ status_Index s < wrap32 (Z.of_nat (length args) / 2)) →
  V2.getItemFromCache l key args now = initCacheItem l key args now.
Proof.
  intros Hne Heven Hcond.
  destruct args as [|total [|duration rest]]; [done | | ].
  { destruct Heven as [k Hk]. simpl in Hk. lia. }
  unfold V2.getItemFromCache, V2.initCacheItem, initCacheItem, stepStatus,
    getStatusMapValue.
  remember (wrap32 (Z.of_nat (length (total :: duration :: rest)) / 2)) as pc eqn:Epc.
  change (index (total :: duration :: rest) 0) with (Ok (A:=Z) total).
  change (index (total :: duration :: rest) 1) with (Ok (A:=Z) duration).
  cbn [mbind outcome_bind].
  destruct (Z.ltb_spec pc 2) as [Hsingle|Hmulti].
  - destruct (Z.ltb_spec 1 pc) as [Hlt|_]; [lia|].
    rewrite V2_handleSinglePolicy_eq. reflexivity.
  - destruct (Z.ltb_spec 1 pc) as [_|Hle]; [|lia].
    destruct (status l !! statusKeyOf key) as [s|] eqn:Hs.
    + destruct (Hcond Hmulti s eq_refl) as [Hlive Hbelow].
      destruct (Z.ltb_spec (status_Expire s) now) as [Hexp|_]; [lia|].
      destruct (Z.leb_spec pc (status_Index s)) as [Hge|_]; [lia|].
      cbn [status_Index].
      destruct (index _ (sub32 (mul32 (add32 (status_Index s) 1) 2) 2)) as [t'|];
        [|reflexivity].
      cbn [mbind outcome_bind].
      destruct (index _ (sub32 (mul32 (add32 (status_Index s) 1) 2) 1)) as [d'|];
        [|reflexivity].
      cbn [mbind outcome_bind].
      unfold setMapValue, setStatusMapValue. cbn [status store options].
      rewrite insert_insert_eq. reflexivity.
    + rewrite V2_handleSinglePolicy_eq. cbn zeta. cbn [mbind outcome_bind].
      reflexivity.
Qed.

(** X15: the two texts of [Get] agree, on the values cast to [int32], wherever
    the choice of the tier is not at stake: always while the item of the
    identifier is in its window, and at the start of a window unless the
    status item has expired or is at the last pair.  They return the same
    result and leave the same limiter. *)
Theorem V2_Get_agrees l id (policy : list Z) now :
  policy ≠ [] →
  (starts_window l (keyOf l id) now →
   2 <= wrap32 (Z.of_nat (length policy) / 2) →
   ∀ s, status l !! statusKeyOf (keyOf l id) = Some s →
        now <= status_Expire s
        ∧ status_Index s < wrap32 (Z.of_nat (length policy) / 2)) →
  V2.Get l id policy now = Get l id (wrap32 <$> policy) now.
Proof.
  intros Hne Hcond. unfold V2.Get, Get. fold (keyOf l id).
  rewrite length_fmap.
  destruct (Z.of_nat (length policy) mod 2 =? 1) eqn:Hodd; [reflexivity|].
  destruct (Z.eqb_spec (Z.of_nat (length policy)) 0) as [H0|_].
  { destruct policy; [done | simpl in H0; lia]. }
  assert (Heven : Nat.Even (length (wrap32 <$> policy))).
  { rewrite length_fmap. destruct (Nat.Even_or_Odd (length policy)) as [He|Ho]; [exact He|].
    apply odd_length_mod in Ho. rewrite Ho in Hodd. discriminate. }
  assert (Hne' : wrap32 <$> policy ≠ []) by (destruct policy; [done | discriminate]).
  unfold V2.getResult, getResult. f_equal.
  unfold V2.getLimit, getLimit, getMapValue.
  assert (Hinit : starts_window l (keyOf l id) now →
            V2.getItemFromCache l (keyOf l id) (wrap32 <$> policy) now
            = initCacheItem l (keyOf l id) (wrap32 <$> policy) now).
  { intros Hstart. apply V2_getItemFromCache_agrees; [exact Hne' | exact Heven|].
    rewrite length_fmap. apply Hcond, Hstart. }
  unfold starts_window in Hinit.
  destruct (store l !! keyOf l id) as [old|]; [|apply Hinit; exact I].
  destruct (Z.ltb_spec (item_Expire old) now) as [Hlt|_]; [apply Hinit; exact Hlt|].
  reflexivity.
Qed.

Lemma V2_Get_agrees_witness :
  V2.Get after_first_window "a" two_tiers (ms 101)
  = Get after_first_window "a" (wrap32 <$> two_tiers) (ms 101).
Proof.
  apply (V2_Get_agrees after_first_window "a" two_tiers (ms 101)).
  - discriminate.
  - intros _ _ s Hs. vm_compute in Hs. injection Hs as <-.
    vm_compute. split; [discriminate | reflexivity].
Defined.

Lemma V2_Get_starts l id (policy : list Z) now :
  Nat.Even (length policy) → Z.of_nat (length policy) < 2 ^ 31 →
  2 <= Z.of_nat (length policy) / 2 →
  starts_window l (keyOf l id) now →
  V2.Get l id policy now
  = '(l', res) ← V2.initCacheItem l (keyOf l id) (wrap32 <$> policy) now;
    Ok (l', resultOf res, None).
Proof.
  intros Heven Hb Hmulti Hstart. unfold V2.Get. fold (keyOf l id).
  rewrite (even_length_mod _ Heven). cbn [Z.eqb].
  destruct (Z.eqb_spec (Z.of_nat (length policy)) 0) as [H0|_].
  { assert (Z.of_nat (length policy) / 2 = 0) by (rewrite H0; reflexivity). lia. }
  unfold V2.getResult, V2.getLimit, getMapValue.
  assert (Hitem : V2.getItemFromCache l (keyOf l id) (wrap32 <$> policy) now
                  = V2.initCacheItem l (keyOf l id) (wrap32 <$> policy) now).
  { unfold V2.getItemFromCache. rewrite length_fmap, (policyCount_half _ Hb).
    destruct (Z.ltb_spec (Z.of_nat (length policy) / 2) 2); [lia | reflexivity]. }
  unfold starts_window in Hstart.
  destruct (store l !! keyOf l id) as [old|].
  - destruct (Z.ltb_spec (item_Expire old) now); [|lia]. rewrite Hitem. reflexivity.
  - rewrite Hitem. reflexivity.
Qed.

(** X16: in the second text a status item that has expired counts for nothing:
    the window that starts is of the first pair, whatever index the item
    held, and the status item is stored with index 1. *)
Theorem V2_Get_restores_first_tier l id total duration rest now s :
  let args := total :: duration :: rest in
  Nat.Even (length args) → Z.of_nat (length args) < 2 ^ 31 →
  2 <= Z.of_nat (length args) / 2 →
  starts_window l (keyOf l id) now →
  status l !! statusKeyOf (keyOf l id) = Some s →
  status_Expire s < now →
  let q := wrap32 total in
  let w := wrap32 duration in
  ∃ l',
    V2.Get l id args now
    = Ok (l', mkResult q (sub32 q 1) (ms w) (now + ms w), None)
    ∧ status l' !! statusKeyOf (keyOf l id) = Some (mkStatus 1 (now + ms w * 2))
    ∧ store l' !! keyOf l id = Some (mkItem q (sub32 q 1) (ms w) (now + ms w)).
Proof.
  intros args Heven Hb Hmulti Hstart Hs Hexp q w.
  rewrite (V2_Get_starts _ _ _ _ Heven Hb Hmulti Hstart).
  unfold V2.initCacheItem, getStatusMapValue. rewrite Hs.
  destruct (Z.ltb_spec (status_Expire s) now) as [_|Hge]; [|lia].
  destruct tier_index_first as [-> ->].
  unfold args. rewrite !fmap_cons.
  change (index (wrap32 total :: wrap32 duration :: (wrap32 <$> rest)) 0)
    with (Ok (A:=Z) (wrap32 total)).
  change (index (wrap32 total :: wrap32 duration :: (wrap32 <$> rest)) 1)
    with (Ok (A:=Z) (wrap32 duration)).
  cbn [mbind outcome_bind].
  eexists. split; [reflexivity|].
  unfold setMapValue, setStatusMapValue. cbn [status store].
  rewrite !lookup_insert_eq. done.
Qed.

Lemma V2_Get_restores_first_tier_witness :
  ∃ l',
    V2.Get after_first_window "a" [3; 100; 2; 200] (ms 1000)
    = Ok (l', mkResult (wrap32 3) (sub32 (wrap32 3) 1) (ms (wrap32 100))
                (ms 1000 + ms (wrap32 100)), None)
    ∧ status l' !! statusKeyOf (keyOf after_first_window "a")
      = Some (mkStatus 1 (ms 1000 + ms (wrap32 100) * 2))
    ∧ store l' !! keyOf after_first_window "a"
      = Some (mkItem (wrap32 3) (sub32 (wrap32 3) 1) (ms (wrap32 100))
                (ms 1000 + ms (wrap32 100))).
Proof.
  apply (V2_Get_restores_first_tier after_first_window "a" 3 100 [2; 200] (ms 1000)
           (mkStatus 1 (ms 200))).
  - exists 2%nat. reflexivity.
  - simpl. lia.
  - vm_compute. discriminate.
  - vm_compute. reflexivity.
  - reflexivity.
  - vm_compute. reflexivity.
Defined.

(** X17: in the second text a live status item at the last pair, or beyond it,
    keeps the tier at the last pair: the window that starts is of the
    last pair, and the status item is stored with the number of pairs as
    its index. *)
Theorem V2_Get_pins_last_tier l id (policy : list Z) now s :
  let n := Z.of_nat (length policy) / 2 in
  Nat.Even (length policy) → Z.of_nat (length policy) < 2 ^ 31 →
  2 <= n →
  starts_window l (keyOf l id) now →
  status l !! statusKeyOf (keyOf l id) = Some s →
  now <= status_Expire s → n <= status_Index s →
  ∃ l' q w,
    (wrap32 <$> policy) !! Z.to_nat (2 * n - 2) = Some q
    ∧ (wrap32 <$> policy) !! Z.to_nat (2 * n - 1) = Some w
    ∧ V2.Get l id policy now
      = Ok (l', mkResult q (sub32 q 1) (ms w) (now + ms w), None)
    ∧ status l' !! statusKeyOf (keyOf l id) = Some (mkStatus n (now + ms w * 2)).
Proof.
  intros n Heven Hb Hmulti Hstart Hs Hlive Hlast.
  rewrite (V2_Get_starts _ _ _ _ Heven Hb Hmulti Hstart).
  unfold V2.initCacheItem, getStatusMapValue. rewrite Hs.
  rewrite length_fmap, (policyCount_half _ Hb). fold n.
  assert (Hhalf : 2 * n <= Z.of_nat (length policy))
    by (apply Z.mul_div_le; lia).
  destruct (Z.ltb_spec (status_Expire s) now) as [Hexp|_]; [lia|].
  destruct (Z.leb_spec n (status_Index s)) as [_|Hlt]; [|lia].
  assert (Hi0 : sub32 (mul32 n 2) 2 = 2 * n - 2).
  { unfold sub32, mul32. rewrite (wrap32_id (n * 2)) by (unfold in_int32; lia).
    rewrite wrap32_id by (unfold in_int32; lia). lia. }
  assert (Hi1 : sub32 (mul32 n 2) 1 = 2 * n - 1).
  { unfold sub32, mul32. rewrite (wrap32_id (n * 2)) by (unfold in_int32; lia).
    rewrite wrap32_id by (unfold in_int32; lia). lia. }
  rewrite Hi0, Hi1.
  destruct (lookup_lt_is_Some_2 (wrap32 <$> policy) (Z.to_nat (2 * n - 2)))
    as [q Hq]; [rewrite length_fmap; lia|].
  destruct (lookup_lt_is_Some_2 (wrap32 <$> policy) (Z.to_nat (2 * n - 1)))
    as [w Hw]; [rewrite length_fmap; lia|].
  assert (H0 : 0 <= 2 * n - 2) by lia. assert (H1 : 0 <= 2 * n - 1) by lia.
  rewrite (index_lookup _ _ _ H0 Hq), (index_lookup _ _ _ H1 Hw).
  cbn [mbind outcome_bind].
  eexists _, q, w. split; [exact Hq|]. split; [exact Hw|].
  split; [reflexivity|].
  unfold setMapValue, setStatusMapValue. cbn [status]. apply lookup_insert_eq.
Qed.

Lemma V2_Get_pins_last_tier_witness :
  ∃ l' q w,
    (wrap32 <$> two_tiers) !! Z.to_nat (2 * (Z.of_nat (length two_tiers) / 2) - 2) = Some q
    ∧ (wrap32 <$> two_tiers) !! Z.to_nat (2 * (Z.of_nat (length two_tiers) / 2) - 1)
      = Some w
    ∧ V2.Get after_second_window "a" two_tiers (ms 302)
      = Ok (l', mkResult q (sub32 q 1) (ms w) (ms 302 + ms w), None)
    ∧ status l' !! statusKeyOf (keyOf after_second_window "a")
      = Some (mkStatus (Z.of_nat (length two_tiers) / 2) (ms 302 + ms w * 2)).
Proof.
  apply (V2_Get_pins_last_tier after_second_window "a" two_tiers (ms 302)
           (mkStatus 2 (ms 501))).
  - exists 2%nat. reflexivity.
  - simpl. lia.
  - vm_compute. discriminate.
  - vm_compute. reflexivity.
  - reflexivity.
  - vm_compute. discriminate.
  - vm_compute. discriminate.
Defined.







(** ** [Get], then [Remove] *)

Lemma limiter_eq l1 l2 :
  store l1 = store l2 → status l1 = status l2 → options l1 = options l2 → l1 = l2.
Proof. destruct l1, l2. cbn. intros -> -> ->. reflexivity. Qed.

(** X13: for an identifier never seen, [Remove] undoes [Get]: whatever the
    policy, the item and the status item the [Get] stored are deleted and
    the limiter is the one of before. *)
Theorem Get_then_Remove l id policy now l' r e :
  never_seen l id →
  Get l id policy now = Ok (l', r, e) →
  Remove l' id = l.
Proof.
  intros [Hs Ht] Hget.
  destruct (Get_frame _ _ _ _ _ _ _ Hget) as (Hopt & Hstore & Hstatus).
  apply limiter_eq.
  - apply map_eq. intros k. unfold Remove. cbn [store]. rewrite Hopt.
    fold (keyOf l id). destruct (decide (k = keyOf l id)) as [->|Hne].
    + rewrite lookup_delete_eq, Hs. reflexivity.
    + rewrite lookup_delete_ne by congruence. apply Hstore, Hne.
  - apply map_eq. intros k. unfold Remove. cbn [status]. rewrite Hopt.
    fold (keyOf l id). destruct (decide (k = statusKeyOf (keyOf l id))) as [->|Hne].
    + rewrite lookup_delete_eq, Ht. reflexivity.
    + rewrite lookup_delete_ne by congruence. apply Hstatus, Hne.
  - unfold Remove. cbn [options]. exact Hopt.
Qed.

Lemma Get_then_Remove_witness : Remove after_first_window "a" = limiter0.
Proof.
  apply (Get_then_Remove limiter0 "a" two_tiers 0 after_first_window
           (mkResult 3 2 (ms 100) (ms 100)) None).
  - split; reflexivity.
  - vm_compute. reflexivity.
Defined.

(** ** No panic in the second text *)

Lemma V2_initCacheItem_ok l key (args : list Z) now :
  status_ok l → Z.of_nat (length args) < 2 ^ 31 →
  2 <= Z.of_nat (length args) / 2 →
  ∃ l' res,
    V2.initCacheItem l key args now = Ok (l', res)
    ∧ status_ok l' ∧ options l' = options l
    ∧ store l' !! key = Some res
    ∧ ∃ s, status l' !! statusKeyOf key = Some s
           ∧ 1 <= status_Index s <= Z.of_nat (length args) / 2.
Proof.
  intros Hok Hb Hmulti.
  assert (Hhalf : 2 * (Z.of_nat (length args) / 2) <= Z.of_nat (length args))
    by (apply Z.mul_div_le; lia).
  unfold V2.initCacheItem, getStatusMapValue. rewrite (policyCount_half _ Hb).
  set (n := Z.of_nat (length args) / 2) in *.
  destruct (status l !! statusKeyOf key) as [s|] eqn:Hs.
  - pose proof (Hok _ _ Hs) as Hidx.
    set (i1 := if status_Expire s <? now then 1
               else if n <=? status_Index s then n else add32 (status_Index s) 1).
    assert (Hi1 : 1 <= i1 <= n).
    { unfold i1. destruct (status_Expire s <? now); [lia|].
      destruct (Z.leb_spec n (status_Index s)); [lia|].
      unfold add32. rewrite wrap32_id by (unfold in_int32; lia). lia. }
    assert (Hi0 : sub32 (mul32 i1 2) 2 = 2 * i1 - 2
                  ∧ sub32 (mul32 i1 2) 1 = 2 * i1 - 1).
    { unfold sub32, mul32. rewrite (wrap32_id (i1 * 2)) by (unfold in_int32; lia).
      rewrite !wrap32_id by (unfold in_int32; lia). lia. }
    destruct Hi0 as [-> ->].
    destruct (index_in_range args (2 * i1 - 2)) as [q ->]; [lia|].
    destruct (index_in_range args (2 * i1 - 1)) as [w ->]; [lia|].
    cbn [mbind outcome_bind].
    eexists _, _. split; [reflexivity|].
    unfold setMapValue, setStatusMapValue. cbn [status store options].
    split; [|split; [reflexivity|]].
    + intros k' s'. cbn [status]. rewrite lookup_insert.
      case_decide; [intros Heq; injection Heq as <-; cbn; lia | apply Hok].
    + rewrite !lookup_insert_eq. split; [reflexivity|].
      eexists. split; [reflexivity|]. cbn. lia.
  - destruct (index_in_range args 1) as [w Hw]; [lia|].
    destruct (index_in_range args 0) as [q Hq]; [lia|].
    unfold V2.handleSinglePolicy. rewrite Hw, Hq. cbn [mbind outcome_bind].
    eexists _, _. split; [reflexivity|].
    unfold setMapValue, setStatusMapValue. cbn [status store options].
    split; [|split; [reflexivity|]].
    + intros k' s'. cbn [status]. rewrite lookup_insert.
      case_decide; [intros Heq; injection Heq as <-; cbn; lia | apply Hok].
    + rewrite !lookup_insert_eq. split; [reflexivity|].
      eexists. split; [reflexivity|]. cbn. lia.
Qed.

(** X19: [Get] of the second text returns on every policy of fewer than
    [2 ^ 31] values when the status items are in order, and keeps them in
    order: an odd length is the error, an even one a result read off the
    item the identifier then has.  The index it takes into the policy is
    from 1 to the number of pairs, so no index leaves the policy. *)
Theorem V2_Get_returns l id (policy : list Z) now :
  status_ok l → Z.of_nat (length policy) < 2 ^ 31 →
  ∃ l' r e,
    V2.Get l id policy now = Ok (l', r, e)
    ∧ status_ok l' ∧ options l' = options l
    ∧ (e = None ↔ Nat.Even (length policy))
    ∧ (e = None → ∃ res, store l' !! keyOf l id = Some res ∧ r = resultOf res).
Proof.
  intros Hok Hb. unfold V2.Get. fold (keyOf l id).
  destruct (Nat.Even_or_Odd (length policy)) as [Heven|Hodd].
  - rewrite (even_length_mod _ Heven). cbn [Z.eqb].
    set (p32 := if Z.of_nat (length policy) =? 0 then _ else _).
    assert (Hp : Nat.Even (length p32) ∧ 2 <= Z.of_nat (length p32) < 2 ^ 31).
    { unfold p32. destruct (Z.eqb_spec (Z.of_nat (length policy)) 0) as [H0|Hn0].
      - split; [exists 1%nat; reflexivity | simpl; lia].
      - rewrite length_fmap. split; [exact Heven|].
        destruct Heven as [k Hk]. lia. }
    destruct Hp as [Hpe Hpb].
    assert (Hitem : ∃ l' res,
              V2.getItemFromCache l (keyOf l id) p32 now = Ok (l', res)
              ∧ status_ok l' ∧ options l' = options l
              ∧ store l' !! keyOf l id = Some res).
    { unfold V2.getItemFromCache. rewrite policyCount_half by lia.
      destruct (Z.ltb_spec (Z.of_nat (length p32) / 2) 2) as [Hsingle|Hmulti].
      - destruct (index_in_range p32 0) as [q Hq]; [lia|].
        destruct (index_in_range p32 1) as [w Hw]; [lia|].
        unfold V2.handleSinglePolicy. rewrite Hq, Hw. cbn [mbind outcome_bind].
        eexists _, _. split; [reflexivity|].
        unfold setMapValue. cbn [status store options].
        rewrite lookup_insert_eq. done.
      - destruct (V2_initCacheItem_ok l (keyOf l id) p32 now Hok)
          as (l' & res & Heq & Hok' & Hopt & Hres & _); [lia | lia |].
        exists l', res. done. }
    unfold V2.getResult, V2.getLimit, getMapValue.
    destruct (store l !! keyOf l id) as [old|] eqn:Hold.
    + destruct (item_Expire old <? now).
      * destruct Hitem as (l' & res & -> & Hok' & Hopt & Hres).
        cbn [mbind outcome_bind]. exists l', (resultOf res), None.
        split; [reflexivity|]. repeat split; eauto.
      * destruct (item_Remaining old =? -1); cbn [mbind outcome_bind].
        -- exists l, (resultOf old), None. split; [reflexivity|]. repeat split; eauto.
        -- eexists _, _, None. split; [reflexivity|].
           unfold setMapValue. cbn [status store options].
           rewrite lookup_insert_eq. repeat split; eauto.
    + destruct Hitem as (l' & res & -> & Hok' & Hopt & Hres).
      cbn [mbind outcome_bind]. exists l', (resultOf res), None.
      split; [reflexivity|]. repeat split; eauto.
  - rewrite (odd_length_mod _ Hodd). cbn [Z.eqb].
    eexists _, _, _. split; [reflexivity|]. split; [exact Hok|]. split; [reflexivity|].
    split; [|discriminate]. split; [discriminate|].
    intros Heven. destruct Heven as [a Ha], Hodd as [b Hb']. lia.
Qed.

Lemma V2_Get_returns_witness :
  ∃ l' r e,
    V2.Get after_second_window "a" two_tiers (ms 302) = Ok (l', r, e)
    ∧ status_ok l' ∧ options l' = options after_second_window
    ∧ (e = None ↔ Nat.Even (length two_tiers))
    ∧ (e = None →
       ∃ res, store l' !! keyOf after_second_window "a" = Some res ∧ r = resultOf res).
Proof.
  apply (V2_Get_returns after_second_window "a" two_tiers (ms 302)).
  - intros k s Hs. unfold after_second_window in Hs. cbn [status] in Hs.
    apply lookup_singleton_Some in Hs as [_ <-]. cbn. lia.
  - simpl. lia.
Defined.
